(** * Source import for serialized script modules

    A shallow embedding of [torch/csrc/jit/import_source.cpp]: the sugared
    values used to resolve identifiers while methods are re-compiled from
    their textual form ([ModuleAccessorValue], [OpsValue], [ConstantValue],
    [ConstantTableValue]), the [SourceImporter] with its version header and
    environment, and the two drivers [import_methods] and [import_libs]. *)

From Stdlib Require Import ZArith Ascii String List Lia Bool.
From Stdlib Require Import DecimalString.
From Equations Require Import Equations.
From stdpp Require Import base strings list gmap.

Import ListNotations.
Local Open Scope string_scope.
Local Open Scope Z_scope.
Local Open Scope list_scope.

(** ** The C and C++ library functions the file calls *)

Module CLib.

(** [int64_t] and [size_t] on the 64-bit targets the file is built for. *)
Definition LLONG_MAX : Z := 2 ^ 63 - 1.
Definition LLONG_MIN : Z := - 2 ^ 63.
Definition SIZE_MODULUS : Z := 2 ^ 64.

(** [size_t(x)] for a signed [x]: reduction modulo [2^64]. *)
Definition to_size_t (x : Z) : Z := x mod SIZE_MODULUS.

Definition clamp_llong (x : Z) : Z :=
  if x <? LLONG_MIN then LLONG_MIN
  else if LLONG_MAX <? x then LLONG_MAX
  else x.

Definition code (c : ascii) : Z := Z.of_N (N_of_ascii c).

(** [isspace] in the "C" locale: space, and \t \n \v \f \r. *)
Definition isspace (c : ascii) : bool :=
  (code c =? 32) || ((9 <=? code c) && (code c <=? 13)).

Definition isdigit (c : ascii) : bool :=
  (48 <=? code c) && (code c <=? 57).

Definition digit_value (c : ascii) : Z := code c - 48.

(** [std::string::c_str]: the characters up to the first NUL. *)
Fixpoint c_str (s : string) : string :=
  match s with
  | EmptyString => EmptyString
  | String c s' => if (code c =? 0) then EmptyString else String c (c_str s')
  end.

(** [p + 1] for a [p] that points at the first character of a
    [std::string] buffer: the buffer without its first character.  On the
    empty string the pointer is past the terminator; the only caller
    rejects that field whatever is read there. *)
Definition advance1 (s : string) : string :=
  match s with
  | EmptyString => EmptyString
  | String _ s' => s'
  end.

Fixpoint skip_space (s : string) : string :=
  match s with
  | String c s' => if isspace c then skip_space s' else s
  | EmptyString => EmptyString
  end.

(** The digit loop: the value read so far and the unread rest. *)
Fixpoint scan_digits (acc : Z) (s : string) : Z * string :=
  match s with
  | String c s' =>
      if isdigit c then scan_digits (10 * acc + digit_value c) s'
      else (acc, s)
  | EmptyString => (acc, EmptyString)
  end.

Definition split_sign (s : string) : bool * string :=
  match s with
  | String c s' =>
      if (code c =? 45) then (true, s')
      else if (code c =? 43) then (false, s')
      else (false, s)
  | EmptyString => (false, EmptyString)
  end.

Definition starts_with_digit (s : string) : bool :=
  match s with
  | String c _ => isdigit c
  | EmptyString => false
  end.

(** The subject sequence of [strtoll] and [std::stoll] in base 10: optional
    white space, an optional sign, then decimal digits.  [None] when there
    is no digit; otherwise the exact value and the unread rest. *)
Definition parse_integer (nptr : string) : option (Z * string) :=
  let '(neg, s) := split_sign (skip_space nptr) in
  if starts_with_digit s then
    let '(v, rest) := scan_digits 0 s in
    Some (if neg then - v else v, rest)
  else None.

(** [strtoll(nptr, &end, 10)] returns the value, saturated to the range of
    [long long], and [end].  Without any digit the value is 0 and [end] is
    [nptr]. *)
Definition strtoll (nptr : string) : Z * string :=
  match parse_integer nptr with
  | Some (v, rest) => (clamp_llong v, rest)
  | None => (0, nptr)
  end.

(** [std::stoll(str)]: the value, or one of the two standard exceptions. *)
Inductive stoll_result :=
| stoll_value (v : Z)
| stoll_invalid_argument
| stoll_out_of_range.

Definition stoll (str : string) : stoll_result :=
  match parse_integer (c_str str) with
  | Some (v, _) =>
      if (LLONG_MIN <=? v) && (v <=? LLONG_MAX) then stoll_value v
      else stoll_out_of_range
  | None => stoll_invalid_argument
  end.

(** [operator<<] of an output stream on an [int64_t] and on a [size_t]. *)
Definition show_int (x : Z) : string := NilZero.string_of_int (Z.to_int x).
Definition show_size (n : nat) : string :=
  NilZero.string_of_uint (Nat.to_uint n).

End CLib.

(** ** Source locations, exceptions and tokens *)

Record SourceRange := { range_start : nat; range_end : nat }.

(** What the file can throw: an [ErrorReport] at a location with its
    message, or an exception of the standard library. *)
Inductive Exception :=
| ErrorReport (range : SourceRange) (what : string)
| std_out_of_range
| std_invalid_argument.

Definition Result (A : Type) : Type := Exception + A.

Inductive TokenKind :=
| TK_EOF
| TK_IDENT
| TK_NUMBER
| TK_NEWLINE
| TK_CHAR (c : ascii)
| TK_KEYWORD (k : string).

Record Token := { kind : TokenKind; range : SourceRange; text : string }.

#[global] Instance TokenKind_eq_dec : EqDecision TokenKind.
Proof. solve_decision. Defined.

(** ** Values of the graph under construction *)

(** A tensor is a handle to storage the importer never looks into. *)
Inductive Tensor := TensorHandle (id : nat).

(** [double] values as far as the file names them. *)
Inductive nan_kind := quiet | signaling.

Inductive double :=
| double_finite (negative : bool) (mantissa : positive) (exponent : Z)
| double_zero (negative : bool)
| double_infinity (negative : bool)
| double_nan (k : nan_kind).

(** [std::numeric_limits<double>::infinity()] and [quiet_NaN()]. *)
Definition numeric_limits_infinity : double := double_infinity false.
Definition numeric_limits_quiet_NaN : double := double_nan quiet.

Inductive IValue :=
| IValue_Tensor (t : Tensor)
| IValue_Double (d : double).

Inductive TypePtr :=
| TensorType
| NamedType (name : string).

(** A [Value*] of a graph: one of its inputs or the output of one of its
    nodes, by position. *)
Inductive Value :=
| graph_input (index : nat)
| node_output (index : nat).

(** A constant node: the literal and the location it was inserted for. *)
Record Node := { node_value : IValue; node_range : option SourceRange }.

Record Graph := { inputs : list TypePtr; nodes : list Node }.

(** An [IValue*] slot of a module, by address. *)
Abbreviation SlotPtr := nat (only parsing).

(** The method being compiled, as far as resolution touches it: its graph
    and the slots already turned into graph inputs. *)
Record Method := {
  graph : Graph;
  initial_ivalue_index : list (SlotPtr * nat)
}.

(** [Graph::insertConstant(val, scope, loc)] appends a constant node and
    returns its output. *)
Definition insertConstant (val : IValue) (loc : option SourceRange)
    (m : Method) : Value * Method :=
  let g := graph m in
  (node_output (length (nodes g)),
   {| graph := {| inputs := inputs g;
                  nodes := nodes g ++ [ {| node_value := val; node_range := loc |} ] |};
      initial_ivalue_index := initial_ivalue_index m |}).

Fixpoint find_slot (slot : SlotPtr) (index : list (SlotPtr * nat)) : option nat :=
  match index with
  | [] => None
  | (s, i) :: index' => if Nat.eqb s slot then Some i else find_slot slot index'
  end.

(** Modelled from the spec: [Method::get_or_add_attribute] is declared
    outside this file.  It interns a slot into the method being compiled: a
    slot met before yields the graph input made for it then, a new slot
    gets a fresh graph input of the declared type. *)
Definition get_or_add_attribute (type : TypePtr) (slot : SlotPtr)
    (m : Method) : Value * Method :=
  match find_slot slot (initial_ivalue_index m) with
  | Some i => (graph_input i, m)
  | None =>
      let g := graph m in
      let i := length (inputs g) in
      (graph_input i,
       {| graph := {| inputs := inputs g ++ [type]; nodes := nodes g |};
          initial_ivalue_index := initial_ivalue_index m ++ [(slot, i)] |})
  end.

(** Modelled from the spec: [Method::get_or_add_parameter], declared
    outside this file, takes the same interning path for a tensor slot. *)
Definition get_or_add_parameter (slot : SlotPtr) (m : Method) : Value * Method :=
  get_or_add_attribute TensorType slot m.

(** ** Modules and sugared values *)

(** A [std::shared_ptr<Module>]: the address of a module in the store. *)
Abbreviation ModulePtr := nat (only parsing).

(** A [Method&] found in a module: the owner and the name it is filed
    under. *)
Record MethodRef := { method_owner : ModulePtr; method_name : string }.

Inductive SugaredValue :=
| ModuleAccessorValue (module : ModulePtr)
| MethodValue (self : SugaredValue) (method : MethodRef)
| SimpleValue (value : Value)
| BuiltinModule (name : string) (version : Z)
| OpsValue (version_ : Z)
| ConstantValue (value_ : IValue)
| ConstantTableValue (constants_ : list Tensor)
| ForkValue
| AnnotateValue.

Record ClassType := { class_type_name : string; class_type_module : ModulePtr }.

(** [Self] is built either from a sugared value or from a class type. *)
Inductive Self :=
| Self_sugared (v : SugaredValue)
| Self_class (c : ClassType).

Definition Resolver : Type :=
  string -> Method -> SourceRange -> option SugaredValue.

(** Function and class definitions as the parser returns them. *)
Record Def := { def_name : string; def_tokens : list Token }.
Record ClassDef := { class_name : string; class_defs : list Def }.

Record NamedIValue := { nv_type : TypePtr; nv_slot : SlotPtr }.

(** A method attached to a module: the definition it was compiled from,
    with the resolver and the [self] it was compiled against. *)
Record MethodEntry := {
  entry_def : Def;
  entry_resolver : Resolver;
  entry_self : Self
}.

Record Module := {
  modules : gmap string ModulePtr;
  parameters : gmap string NamedIValue;
  buffers : gmap string NamedIValue;
  attributes : gmap string NamedIValue;
  methods : list MethodEntry
}.

Definition empty_Module : Module :=
  {| modules := ∅; parameters := ∅; buffers := ∅; attributes := ∅;
     methods := [] |}.

(** Sequencing of computations that may throw. *)
Definition throw {A : Type} (e : Exception) : Result A := inl e.
Definition ret {A : Type} (a : A) : Result A := inr a.
Definition bind {A B : Type} (r : Result A) (k : A -> Result B) : Result B :=
  match r with
  | inl e => inl e
  | inr a => k a
  end.

Notation "'do' x <- r ; k" := (bind r (fun x => k))
  (at level 10, x pattern, r at level 100, k at level 200).

(** The five lookups of [Module] are declared outside this file.  Each
    looks the name up in its own namespace of the module and yields nothing
    when the name is not there. *)

(** Modelled from the spec: [Module::find_module], the submodule of that
    name. *)
Definition find_module (M : Module) (name : string) : option ModulePtr :=
  modules M !! name.

(** Modelled from the spec: [Module::find_parameter], the parameter slot of
    that name. *)
Definition find_parameter (M : Module) (name : string) : option NamedIValue :=
  parameters M !! name.

(** Modelled from the spec: [Module::find_buffer], the buffer slot of that
    name. *)
Definition find_buffer (M : Module) (name : string) : option NamedIValue :=
  buffers M !! name.

(** Modelled from the spec: [Module::find_attribute], the typed attribute
    slot of that name. *)
Definition find_attribute (M : Module) (name : string) : option NamedIValue :=
  attributes M !! name.

(** Modelled from the spec: [Module::find_method], the method attached
    under that name. *)
Definition find_method (M : Module) (name : string) : option MethodEntry :=
  List.find (fun e => String.eqb (def_name (entry_def e)) name) (methods M).

(** [ModuleAccessorValue::attr].  [module] is the pointer the accessor
    holds and [M] the module it points to; [m] is the method being
    compiled. *)
Definition ModuleAccessorValue_attr (module : ModulePtr) (M : Module)
    (loc : SourceRange) (m : Method) (field : string)
    : Result (SugaredValue * Method) :=
  match find_module M field with
  | Some v => ret (ModuleAccessorValue v, m)
  | None =>
  match find_parameter M field with
  | Some v =>
      let '(value, m') := get_or_add_parameter (nv_slot v) m in
      ret (SimpleValue value, m')
  | None =>
  match find_buffer M field with
  | Some v =>
      let '(value, m') := get_or_add_parameter (nv_slot v) m in
      ret (SimpleValue value, m')
  | None =>
  match find_attribute M field with
  | Some v =>
      let '(value, m') := get_or_add_attribute (nv_type v) (nv_slot v) m in
      ret (SimpleValue value, m')
  | None =>
  match find_method M field with
  | Some _ =>
      ret (MethodValue (ModuleAccessorValue module)
             {| method_owner := module; method_name := field |}, m)
  | None => throw (ErrorReport loc ("unknown attr: " +:+ field))
  end end end end end.

(** [OpsValue::attr]. *)
Definition OpsValue_attr (version_ : Z) (loc : SourceRange) (m : Method)
    (field : string) : Result (SugaredValue * Method) :=
  ret (BuiltinModule field version_, m).

(** [ConstantValue::asValue]. *)
Definition ConstantValue_asValue (value_ : IValue) (loc : SourceRange)
    (m : Method) : Value * Method :=
  insertConstant value_ None m.

(** [ConstantTableValue::attr]. *)
Definition ConstantTableValue_attr (constants_ : list Tensor)
    (loc : SourceRange) (m : Method) (field : string)
    : Result (SugaredValue * Method) :=
  let field_s := field in
  let '(offset, end_) := CLib.strtoll (CLib.c_str (CLib.advance1 field_s)) in
  if (String.length field <? 2)%nat || negb (String.eqb end_ "") then
    throw (ErrorReport loc ("invalid constant specifier: " +:+ field))
  else if (offset <? 0) || (Z.of_nat (length constants_) <=? CLib.to_size_t offset) then
    throw (ErrorReport loc
             ("constant index " +:+ CLib.show_int offset +:+
              " is out of bounds (constant table has " +:+
              CLib.show_size (length constants_) +:+ " entries)."))
  else
    match constants_ !! Z.to_nat offset with
    | Some t =>
        let '(value, m') := insertConstant (IValue_Tensor t) (Some loc) m in
        ret (SimpleValue value, m')
    | None => throw std_out_of_range (* never taken, see below *)
    end.

(** ** The lexer cursor and the version header *)

(** The lexer as the importer sees it: the tokens not yet consumed.  Past
    the last token the lexer keeps presenting [TK_EOF]. *)
Definition Lexer := list Token.

Definition eof_token : Token :=
  {| kind := TK_EOF; range := {| range_start := 0; range_end := 0 |}; text := "" |}.

Definition cur (L : Lexer) : Token :=
  match L with
  | [] => eof_token
  | t :: _ => t
  end.

Definition kindToString (k : TokenKind) : string :=
  match k with
  | TK_EOF => "eof"
  | TK_IDENT => "ident"
  | TK_NUMBER => "number"
  | TK_NEWLINE => "newline"
  | TK_CHAR c => String c ""
  | TK_KEYWORD k => k
  end.

(** Modelled from the spec: [Lexer::expect] is declared outside this file.
    It returns the current token and moves past it when the token has the
    wanted kind, and reports a parse error at the token otherwise. *)
Definition expect (k : TokenKind) (L : Lexer) : Result (Token * Lexer) :=
  if decide (kind (cur L) = k) then ret (cur L, tail L)
  else throw (ErrorReport (range (cur L)) ("expected " +:+ kindToString k)).

(** Modelled from the spec: the [Const] view of a number literal is
    declared outside this file; it holds the text of the literal. *)
Record Const := { const_range : SourceRange; const_text : string }.

(** Modelled from the spec: [Const::create], missing from this file, wraps
    the text of a number token. *)
Definition Const_create (r : SourceRange) (value : string) : Const :=
  {| const_range := r; const_text := value |}.

Fixpoint contains_any (chars : list ascii) (s : string) : bool :=
  match s with
  | EmptyString => false
  | String c s' =>
      if existsb (Ascii.eqb c) chars then true else contains_any chars s'
  end.

(** Modelled from the spec: [Const::isFloatingPoint], missing from this
    file: the text has a fraction or an exponent. *)
Definition isFloatingPoint (c : Const) : bool :=
  contains_any ["."%char; "e"%char; "E"%char] (const_text c).

(** Modelled from the spec: [Const::isIntegral], missing from this file: an
    integral literal has neither a fraction nor an exponent. *)
Definition isIntegral (c : Const) : bool := negb (isFloatingPoint c).

(** Modelled from the spec: [Const::asIntegral], missing from this file,
    reads the integral value of the text with [std::stoll]. *)
Definition asIntegral (c : Const) : Result Z :=
  match CLib.stoll (const_text c) with
  | CLib.stoll_value v => ret v
  | CLib.stoll_invalid_argument => throw std_invalid_argument
  | CLib.stoll_out_of_range => throw std_out_of_range
  end.

(** [SourceImporter::parseVersionNumber], on the lexer of the importer's
    parser: the version and the lexer after the header. *)
Definition parseVersionNumber (L : Lexer) : Result (Z * Lexer) :=
  let range_ := range (cur L) in
  do (name, L1) <- expect TK_IDENT L;
  do (_, L2) <- expect (TK_CHAR "="%char) L1;
  do (version_text, L3) <- expect TK_NUMBER L2;
  do (_, L4) <- expect TK_NEWLINE L3;
  let version := Const_create (range (cur L4)) (text version_text) in
  if negb (String.eqb (text name) "op_version_set") then
    throw (ErrorReport range_ "expected an assignment to op_version_set")
  else if negb (isIntegral version) then
    throw (ErrorReport range_
             ("expected an integral version but found " +:+ const_text version))
  else
    do v <- asIntegral version;
    ret (CLib.to_size_t v, L4).

(** ** The importer and its environment *)

Record SourceImporter := {
  parser_ : Lexer;
  constant_table_ : list Tensor;
  env_ : gmap string SugaredValue;
  resolver_ : Resolver
}.

(** The table the constructor fills [env_] with. *)
Definition make_env (version : Z) (constant_table : list Tensor)
    : gmap string SugaredValue :=
  list_to_map
    [ ("torch", BuiltinModule "aten" version);
      ("ops", OpsValue version);
      ("CONSTANTS", ConstantTableValue constant_table);
      ("fork", ForkValue);
      ("annotate", AnnotateValue);
      ("inf", ConstantValue (IValue_Double numeric_limits_infinity));
      ("nan", ConstantValue (IValue_Double numeric_limits_quiet_NaN)) ].

(** The lambda stored in [resolver_]: a lookup in [env_], a null pointer
    when the name is not there. *)
Definition make_resolver (env : gmap string SugaredValue) : Resolver :=
  fun name m loc =>
    match env !! name with
    | None => None
    | Some v => Some v
    end.

(** The constructor [SourceImporter::SourceImporter(src, constant_table)]. *)
Definition SourceImporter_new (src : Lexer) (constant_table : list Tensor)
    : Result SourceImporter :=
  do (version, L) <- parseVersionNumber src;
  let env := make_env version constant_table in
  ret {| parser_ := L;
         constant_table_ := constant_table;
         env_ := env;
         resolver_ := make_resolver env |}.

(** ** The drivers *)

(** What an import call can change: the modules in the store, by address,
    and the class types created so far. *)
Record World := { store : list Module; class_registry : list ClassType }.

(** [std::make_shared<Module>()]: a fresh, empty module at a new address. *)
Definition make_shared_Module (W : World) : ModulePtr * World :=
  (length (store W),
   {| store := store W ++ [empty_Module]; class_registry := class_registry W |}).

(** Modelled from the spec: [ClassType::create] is declared outside this
    file.  It makes the type-identity value keyed by the class name over
    the given module and records it. *)
Definition ClassType_create (name : string) (module : ModulePtr) (W : World)
    : ClassType * World :=
  let c := {| class_type_name := name; class_type_module := module |} in
  (c, {| store := store W; class_registry := class_registry W ++ [c] |}).

(** Matching on a result while remembering where it came from. *)
Definition inspect {A : Type} (a : A) : { b : A | a = b } := exist _ a eq_refl.

Section Drivers.

(** The parser and the compiler are used through their interfaces:
    [Parser::parseFunction] and [Parser::parseClass] return a definition and
    move the lexer, or throw; [defineMethodsInModule] changes the world, or
    throws part-way through its work. *)
Variable parseFunction : bool -> Lexer -> Result (Def * Lexer).
Variable parseClass : Lexer -> Result (ClassDef * Lexer).
Variable defineMethodsInModule :
  ModulePtr -> list Def -> list Resolver -> Self -> World -> Result unit * World.

(** A definition that parses consumes at least one token. *)
Hypothesis parseFunction_consumes :
  forall is_method L def L',
    parseFunction is_method L = inr (def, L') -> (length L' < length L)%nat.
Hypothesis parseClass_consumes :
  forall L class_def L',
    parseClass L = inr (class_def, L') -> (length L' < length L)%nat.

(** The loop of [import_methods]: one definition and one copy of the
    resolver are pushed per turn, until the lexer is at the end of input. *)
Equations? import_methods_loop (resolver : Resolver) (L : Lexer)
    (definitions : list Def) (resolvers : list Resolver)
    : Result (list Def * list Resolver) by wf (length L) lt :=
import_methods_loop resolver L definitions resolvers
  with decide (kind (cur L) = TK_EOF) => {
  | left _ => ret (definitions, resolvers)
  | right _ with inspect (parseFunction true L) => {
    | exist _ (inl e) _ => throw e
    | exist _ (inr (def, L')) Hparse =>
        import_methods_loop resolver L'
          (definitions ++ [def]) (resolvers ++ [resolver]) } }.
Proof. eapply parseFunction_consumes; eassumption. Qed.

(** [import_methods]. *)
Definition import_methods (mod_ : ModulePtr) (src : Lexer)
    (constant_table : list Tensor) (W : World) : Result unit * World :=
  match SourceImporter_new src constant_table with
  | inl e => (throw e, W)
  | inr importer =>
      match import_methods_loop (resolver_ importer) (parser_ importer) [] [] with
      | inl e => (throw e, W)
      | inr (definitions, resolvers) =>
          let self := ModuleAccessorValue mod_ in
          defineMethodsInModule mod_ definitions resolvers (Self_sugared self) W
      end
  end.

(** The body of the [for] loop of [import_libs] over the methods of one
    class. *)
Definition class_methods (resolver : Resolver) (class_def : ClassDef)
    : list Def * list Resolver :=
  fold_left (fun (acc : list Def * list Resolver) method_def =>
               ((fst acc ++ [method_def])%list, (snd acc ++ [resolver])%list))
            (class_defs class_def) ([], []).

(** The loop of [import_libs]: one class per turn. *)
Equations? import_libs_loop (resolver : Resolver) (L : Lexer) (W : World)
    : Result unit * World by wf (length L) lt :=
import_libs_loop resolver L W
  with decide (kind (cur L) = TK_EOF) => {
  | left _ => (ret tt, W)
  | right _ with inspect (parseClass L) => {
    | exist _ (inl e) _ => (throw e, W)
    | exist _ (inr (class_def, L')) Hparse =>
        let '(definitions, resolvers) := class_methods resolver class_def in
        let '(mod_, W1) := make_shared_Module W in
        let '(class_type, W2) := ClassType_create (class_name class_def) mod_ W1 in
        match defineMethodsInModule mod_ definitions resolvers
                (Self_class class_type) W2 with
        | (inl e, W3) => (throw e, W3)
        | (inr _, W3) => import_libs_loop resolver L' W3
        end } }.
Proof. eapply parseClass_consumes; eassumption. Qed.

(** [import_libs]. *)
Definition import_libs (src : Lexer) (constant_table : list Tensor)
    (W : World) : Result unit * World :=
  match SourceImporter_new src constant_table with
  | inl e => (throw e, W)
  | inr importer =>
      import_libs_loop (resolver_ importer) (parser_ importer) W
  end.

End Drivers.

(** ** The compiler behind [defineMethodsInModule] *)

Definition attach (e : MethodEntry) (M : Module) : Module :=
  {| modules := modules M; parameters := parameters M; buffers := buffers M;
     attributes := attributes M; methods := methods M ++ [e] |}.

Definition attach_method (module : ModulePtr) (e : MethodEntry) (W : World)
    : World :=
  {| store := alter (attach e) module (store W);
     class_registry := class_registry W |}.

Section Compiler.

(** The verdict of graph construction and type inference on one
    definition, which this file does not look into. *)
Variable compile : Def -> Resolver -> Self -> World -> Result unit.

(** Modelled from the spec: [defineMethodsInModule] is declared outside
    this file.  It takes the definitions in order, each with the resolver
    at its position, compiles each against [self] and attaches every
    compiled method to the module.  An error aborts the call; what was
    attached before stays attached. *)
Fixpoint defineMethodsInModule (module : ModulePtr) (definitions : list Def)
    (resolvers : list Resolver) (self : Self) (W : World)
    : Result unit * World :=
  match definitions, resolvers with
  | def :: definitions', resolver :: resolvers' =>
      match compile def resolver self W with
      | inl e => (throw e, W)
      | inr _ =>
          defineMethodsInModule module definitions' resolvers' self
            (attach_method module
               {| entry_def := def; entry_resolver := resolver; entry_self := self |}
               W)
      end
  | _, _ => (ret tt, W)
  end.

End Compiler.

(** ** Vocabulary of the specification *)

(** A constant specifier as the specification writes it: the letter [c],
    then one or more decimal digits, and nothing else. *)
Fixpoint all_digits (s : string) : bool :=
  match s with
  | EmptyString => true
  | String c s' => CLib.isdigit c && all_digits s'
  end.

Definition well_formed_specifier (field : string) : bool :=
  match field with
  | String c (String d ds) =>
      Ascii.eqb c "c" && all_digits (String d ds)
  | _ => false
  end.

(** The specifier [c<i>] written with the digits [d]. *)
Definition specifier (d : Decimal.uint) : string :=
  String "c" (NilEmpty.string_of_uint d).

(** The text of the two errors of the constant table. *)
Definition invalid_specifier_error (loc : SourceRange) (field : string)
    : Exception :=
  ErrorReport loc ("invalid constant specifier: " +:+ field).

Definition index_out_of_bounds_error (loc : SourceRange) (index : Z)
    (pool_size : nat) : Exception :=
  ErrorReport loc
    ("constant index " +:+ CLib.show_int index +:+
     " is out of bounds (constant table has " +:+
     CLib.show_size pool_size +:+ " entries).").

(** The five namespaces of a module in the order the specification gives
    for resolution, and the first of them that has the field. *)
Inductive Namespace :=
| ns_submodule
| ns_parameter
| ns_buffer
| ns_attribute
| ns_method.

Definition resolution_order : list Namespace :=
  [ns_submodule; ns_parameter; ns_buffer; ns_attribute; ns_method].

Definition has_field (M : Module) (field : string) (ns : Namespace) : bool :=
  match ns with
  | ns_submodule => bool_decide (is_Some (modules M !! field))
  | ns_parameter => bool_decide (is_Some (parameters M !! field))
  | ns_buffer => bool_decide (is_Some (buffers M !! field))
  | ns_attribute => bool_decide (is_Some (attributes M !! field))
  | ns_method =>
      existsb (fun e => String.eqb (def_name (entry_def e)) field) (methods M)
  end.

Definition first_match (M : Module) (field : string) : option Namespace :=
  List.find (has_field M field) resolution_order.

(** What the method being compiled goes through between two resolutions:
    slots are interned and constants are inserted. *)
Inductive method_step : Method -> Method -> Prop :=
| step_intern (type : TypePtr) (slot : SlotPtr) (m : Method) :
    method_step m (snd (get_or_add_attribute type slot m))
| step_constant (val : IValue) (loc : option SourceRange) (m : Method) :
    method_step m (snd (insertConstant val loc m)).

(** The names the environment is built with. *)
Definition environment_names : list string :=
  ["torch"; "ops"; "CONSTANTS"; "fork"; "annotate"; "inf"; "nan"].

(** The version header [op_version_set = <text>] followed by a line end,
    as tokens. *)
Definition is_version_header (L : Lexer) (version_text : string)
    (rest : Lexer) : Prop :=
  exists t1 t2 t3 t4,
    L = t1 :: t2 :: t3 :: t4 :: rest /\
    kind t1 = TK_IDENT /\ text t1 = "op_version_set" /\
    kind t2 = TK_CHAR "="%char /\
    kind t3 = TK_NUMBER /\ text t3 = version_text /\
    kind t4 = TK_NEWLINE.

(** The method definitions that remain in a source, in order, under a
    given [parseFunction]; and a source one of whose definitions does not
    parse. *)
Inductive defines_methods (parseFunction : bool -> Lexer -> Result (Def * Lexer))
    : Lexer -> list Def -> Prop :=
| defines_end L :
    kind (cur L) = TK_EOF -> defines_methods parseFunction L []
| defines_more L def L' defs :
    kind (cur L) <> TK_EOF ->
    parseFunction true L = inr (def, L') ->
    defines_methods parseFunction L' defs ->
    defines_methods parseFunction L (def :: defs).

Inductive fails_to_parse (parseFunction : bool -> Lexer -> Result (Def * Lexer))
    : Lexer -> Exception -> Prop :=
| fails_here L e :
    kind (cur L) <> TK_EOF ->
    parseFunction true L = inl e ->
    fails_to_parse parseFunction L e
| fails_later L def L' e :
    kind (cur L) <> TK_EOF ->
    parseFunction true L = inr (def, L') ->
    fails_to_parse parseFunction L' e ->
    fails_to_parse parseFunction L e.

(** The class definitions that remain in a source, in order. *)
Inductive defines_classes (parseClass : Lexer -> Result (ClassDef * Lexer))
    : Lexer -> list ClassDef -> Prop :=
| classes_end L :
    kind (cur L) = TK_EOF -> defines_classes parseClass L []
| classes_more L class_def L' class_defs_ :
    kind (cur L) <> TK_EOF ->
    parseClass L = inr (class_def, L') ->
    defines_classes parseClass L' class_defs_ ->
    defines_classes parseClass L (class_def :: class_defs_).

(** ** Sample data

    Concrete tokens, modules and stand-ins for the parser and the compiler,
    on which the statements below are instantiated. *)

Definition no_range : SourceRange := {| range_start := 0; range_end := 0 |}.

Definition token (k : TokenKind) (s : string) : Token :=
  {| kind := k; range := no_range; text := s |}.

Definition version_header (version_text : string) : Lexer :=
  [ token TK_IDENT "op_version_set"; token (TK_CHAR "=") "=";
    token TK_NUMBER version_text; token TK_NEWLINE "" ].

Definition empty_Method : Method :=
  {| graph := {| inputs := []; nodes := [] |}; initial_ivalue_index := [] |}.

Definition sample_constants : list Tensor :=
  [TensorHandle 0; TensorHandle 1; TensorHandle 2; TensorHandle 3].

Definition sample_Module : Module :=
  {| modules := ∅;
     parameters := {[ "weight" := {| nv_type := TensorType; nv_slot := 7%nat |} ]};
     buffers := ∅;
     attributes := ∅;
     methods := [] |}.

(** A parser for the one-line definitions [def <name>] and the two-line
    classes [class <Name>] followed by one such definition. *)
Definition sample_parseFunction (is_method : bool) (L : Lexer)
    : Result (Def * Lexer) :=
  match L with
  | t1 :: t2 :: t3 :: L' =>
      if decide (kind t1 = TK_KEYWORD "def" /\ kind t2 = TK_IDENT
                 /\ kind t3 = TK_NEWLINE)
      then ret ({| def_name := text t2; def_tokens := [t1; t2; t3] |}, L')
      else throw (ErrorReport (range t1) "expected a definition")
  | _ => throw (ErrorReport (range (cur L)) "expected a definition")
  end.

Definition sample_parseClass (L : Lexer) : Result (ClassDef * Lexer) :=
  match L with
  | t1 :: t2 :: t3 :: L1 =>
      if decide (kind t1 = TK_KEYWORD "class" /\ kind t2 = TK_IDENT
                 /\ kind t3 = TK_NEWLINE)
      then
        do (method_def, L') <- sample_parseFunction true L1;
        ret ({| class_name := text t2; class_defs := [method_def] |}, L')
      else throw (ErrorReport (range t1) "expected a class")
  | _ => throw (ErrorReport (range (cur L)) "expected a class")
  end.

Definition sample_compile (def : Def) (resolver : Resolver) (self : Self)
    (W : World) : Result unit :=
  ret tt.

Definition def_line (name : string) : Lexer :=
  [ token (TK_KEYWORD "def") "def"; token TK_IDENT name; token TK_NEWLINE "" ].

Definition class_line (name : string) : Lexer :=
  [ token (TK_KEYWORD "class") "class"; token TK_IDENT name;
    token TK_NEWLINE "" ].

Definition sample_def (name : string) : Def :=
  {| def_name := name; def_tokens := def_line name |}.

Definition sample_class (name method : string) : ClassDef :=
  {| class_name := name; class_defs := [sample_def method] |}.

Definition sample_World : World :=
  {| store := [sample_Module]; class_registry := [] |}.

Definition sample_importer : SourceImporter :=
  {| parser_ := [];
     constant_table_ := sample_constants;
     env_ := make_env 3 sample_constants;
     resolver_ := make_resolver (make_env 3 sample_constants) |}.

(** * Properties *)

(** ** Reading decimal digits *)

Import CLib.
Lemma c_str_digits (d : Decimal.uint) :
  c_str (NilEmpty.string_of_uint d) = NilEmpty.string_of_uint d.
Proof. induction d; simpl; rewrite ?IHd; reflexivity. Qed.

Lemma scan_digits_pos (d : Decimal.uint) (acc : positive) :
  scan_digits (Z.pos acc) (NilEmpty.string_of_uint d)
  = (Z.pos (Pos.of_uint_acc d acc), "").
Proof.
  revert acc; induction d; intros acc; simpl; try reflexivity.
  all: unfold digit_value, code; simpl N_of_ascii; simpl Z.of_N.
  all: etransitivity; [ | apply IHd ]; f_equal; lia.
Qed.

Lemma scan_digits_uint (d : Decimal.uint) :
  scan_digits 0 (NilEmpty.string_of_uint d) = (Z.of_N (N.of_uint d), "").
Proof.
  induction d; simpl; try reflexivity; try exact IHd.
  all: unfold digit_value, code; simpl N_of_ascii; simpl Z.of_N.
  all: apply (scan_digits_pos d).
Qed.

Lemma digits_start (d : Decimal.uint) :
  d <> Decimal.Nil ->
  split_sign (skip_space (NilEmpty.string_of_uint d))
  = (false, NilEmpty.string_of_uint d)
  /\ starts_with_digit (NilEmpty.string_of_uint d) = true.
Proof. destruct d; intros Hd; try congruence; split; reflexivity. Qed.

Lemma parse_integer_digits (d : Decimal.uint) :
  d <> Decimal.Nil ->
  parse_integer (NilEmpty.string_of_uint d) = Some (Z.of_N (N.of_uint d), "").
Proof.
  intros Hd. unfold parse_integer.
  destruct (digits_start d Hd) as [-> ->].
  rewrite scan_digits_uint. reflexivity.
Qed.

Lemma strtoll_digits (d : Decimal.uint) :
  d <> Decimal.Nil ->
  strtoll (c_str (NilEmpty.string_of_uint d))
  = (Z.min (Z.of_N (N.of_uint d)) LLONG_MAX, "").
Proof.
  intros Hd. unfold strtoll.
  rewrite c_str_digits, parse_integer_digits by assumption.
  f_equal. unfold clamp_llong, LLONG_MIN, LLONG_MAX.
  pose proof (N2Z.is_nonneg (N.of_uint d)).
  repeat case_match; lia.
Qed.

Lemma stoll_digits (d : Decimal.uint) :
  d <> Decimal.Nil ->
  Z.of_N (N.of_uint d) <= LLONG_MAX ->
  stoll (NilEmpty.string_of_uint d) = stoll_value (Z.of_N (N.of_uint d)).
Proof.
  intros Hd Hmax. unfold stoll.
  rewrite c_str_digits, parse_integer_digits by assumption.
  pose proof (N2Z.is_nonneg (N.of_uint d)).
  unfold LLONG_MIN, LLONG_MAX in *.
  case_match; [reflexivity | lia].
Qed.

Lemma to_size_t_small (x : Z) : 0 <= x <= LLONG_MAX -> to_size_t x = x.
Proof.
  unfold to_size_t, SIZE_MODULUS, LLONG_MAX. intros H.
  apply Z.mod_small. lia.
Qed.

Lemma clamp_llong_range (x : Z) : LLONG_MIN <= clamp_llong x <= LLONG_MAX.
Proof.
  unfold clamp_llong, LLONG_MIN, LLONG_MAX.
  destruct (Z.ltb_spec x (- 2 ^ 63)); [lia|].
  destruct (Z.ltb_spec (2 ^ 63 - 1) x); lia.
Qed.

Lemma strtoll_range (nptr : string) :
  LLONG_MIN <= fst (strtoll nptr) <= LLONG_MAX.
Proof.
  unfold strtoll. destruct (parse_integer nptr) as [[v rest]|]; cbn [fst].
  - apply clamp_llong_range.
  - unfold LLONG_MIN, LLONG_MAX. lia.
Qed.


(** ** The constant table *)

(** The table is only indexed inside its bounds. *)
Lemma constant_table_indexed_in_bounds (constants : list Tensor)
    (loc : SourceRange) (m : Method) (field : string) :
  ConstantTableValue_attr constants loc m field <> throw std_out_of_range.
Proof.
  unfold ConstantTableValue_attr.
  pose proof (strtoll_range (c_str (advance1 field))) as Hrange.
  destruct (strtoll (c_str (advance1 field))) as [offset end_].
  cbn [fst] in Hrange.
  destruct (_ || _); [discriminate|].
  destruct (Z.ltb_spec offset 0) as [|Hpos]; cbn [orb]; [discriminate|].
  rewrite to_size_t_small by (unfold LLONG_MAX in *; lia).
  destruct (Z.leb_spec (Z.of_nat (length constants)) offset) as [|Hlt];
    [discriminate|].
  destruct (lookup_lt_is_Some_2 constants (Z.to_nat offset)) as [t Ht]; [lia|].
  rewrite Ht. discriminate.
Qed.

(** When the specifier error is raised: the field is shorter than two
    characters, or [strtoll] stops before the end of what follows the first
    character. *)
Lemma invalid_specifier_iff (constants : list Tensor) (loc : SourceRange)
    (m : Method) (field : string) :
  ConstantTableValue_attr constants loc m field
  = throw (invalid_specifier_error loc field)
  <-> (String.length field < 2)%nat
      \/ snd (CLib.strtoll (CLib.c_str (CLib.advance1 field))) <> "".
Proof.
  unfold ConstantTableValue_attr.
  destruct (CLib.strtoll (CLib.c_str (CLib.advance1 field))) as [offset end_].
  cbn [snd].
  destruct (Nat.ltb_spec (String.length field) 2) as [Hshort|Hlong];
    cbn [orb].
  { split; [intros _; left; assumption | reflexivity]. }
  destruct (String.eqb_spec end_ "") as [->|Hend]; cbn [negb].
  - split.
    + intros H. exfalso.
      destruct (_ || _); [discriminate H|].
      destruct (constants !! Z.to_nat offset); discriminate H.
    + intros [Hshort|Hne]; [lia | congruence].
  - split; [intros _; right; assumption | reflexivity].
Qed.

Lemma listed_specifiers_rejected (constants : list Tensor) (loc : SourceRange)
    (m : Method) (field : string) :
  In field ["c"; "cx"; "c3x"; "3"] ->
  ConstantTableValue_attr constants loc m field
  = throw (invalid_specifier_error loc field).
Proof.
  intros Hin. simpl in Hin.
  destruct Hin as [<-|[<-|[<-|[<-|[]]]]]; reflexivity.
Qed.

Lemma signed_specifier_accepted (loc : SourceRange) (m : Method) :
  well_formed_specifier "c+1" = false /\
  ConstantTableValue_attr sample_constants loc m "c+1"
  = ret (SimpleValue (node_output (length (nodes (graph m)))),
         snd (insertConstant (IValue_Tensor (TensorHandle 1)) (Some loc) m)).
Proof. split; reflexivity. Qed.

Lemma negative_specifier_out_of_bounds (loc : SourceRange) (m : Method) :
  well_formed_specifier "c-1" = false /\
  ConstantTableValue_attr sample_constants loc m "c-1"
  = throw (index_out_of_bounds_error loc (-1) 4).
Proof. split; reflexivity. Qed.

(** C1, at the input where the code departs from it.  The field [x3] is not
    the letter [c] followed by digits, yet [ConstantTableValue::attr] does
    not reject it: the first character is skipped without being looked at,
    and entry 3 of the table is inserted as a constant. *)
Theorem specifier_first_character_unchecked (loc : SourceRange) (m : Method) :
  well_formed_specifier "x3" = false /\
  ConstantTableValue_attr sample_constants loc m "x3"
  = ret (SimpleValue (node_output (length (nodes (graph m)))),
         snd (insertConstant (IValue_Tensor (TensorHandle 3)) (Some loc) m)).
Proof. split; reflexivity. Qed.

Lemma digits_length (d : Decimal.uint) :
  d <> Decimal.Nil -> (1 <= String.length (NilEmpty.string_of_uint d))%nat.
Proof. destruct d; intros Hd; try congruence; simpl; lia. Qed.

(** C4, as amended.  For a constant table of [S] entries (as many as a
    [std::vector] can hold) and a specifier [c<i>] written with one or
    more decimal digits, [ConstantTableValue::attr] succeeds exactly when
    [i < S], and then inserts entry [i] of the table as a constant of the
    graph at the call site.  Otherwise it reports an index out of bounds
    whose message gives the size [S] and the index as [strtoll] read it:
    [i] itself up to [2^63 - 1], and [2^63 - 1] for every larger [i]. *)
Theorem constant_index_bounds (constants : list Tensor) (loc : SourceRange)
    (m : Method) (d : Decimal.uint) :
  d <> Decimal.Nil ->
  Z.of_nat (length constants) <= CLib.LLONG_MAX ->
  let i := Z.of_N (N.of_uint d) in
  (i < Z.of_nat (length constants) ->
   exists t, constants !! Z.to_nat i = Some t /\
     ConstantTableValue_attr constants loc m (specifier d)
     = ret (SimpleValue (node_output (length (nodes (graph m)))),
            snd (insertConstant (IValue_Tensor t) (Some loc) m)))
  /\
  (Z.of_nat (length constants) <= i ->
   ConstantTableValue_attr constants loc m (specifier d)
   = throw (index_out_of_bounds_error loc (Z.min i CLib.LLONG_MAX)
              (length constants))).
Proof.
  intros Hd Hsize i.
  assert (Hi : 0 <= i) by apply N2Z.is_nonneg.
  unfold ConstantTableValue_attr, specifier. cbn [advance1].
  rewrite strtoll_digits by assumption. fold i.
  pose proof (digits_length d Hd) as Hlen.
  replace ((String.length (String "c" (NilEmpty.string_of_uint d)) <? 2)%nat)
    with false by (symmetry; apply Nat.ltb_ge; simpl; lia).
  cbn [orb negb String.eqb].
  assert (Hoff : 0 <= Z.min i LLONG_MAX <= LLONG_MAX)
    by (unfold LLONG_MAX in *; lia).
  rewrite to_size_t_small by assumption.
  replace (Z.min i LLONG_MAX <? 0) with false by (symmetry; apply Z.ltb_ge; lia).
  cbn [orb].
  split; intros Hcmp.
  - replace (Z.min i LLONG_MAX) with i by lia.
    replace (Z.of_nat (length constants) <=? i) with false
      by (symmetry; apply Z.leb_gt; lia).
    destruct (lookup_lt_is_Some_2 constants (Z.to_nat i)) as [t Ht]; [lia|].
    exists t. split; [assumption|]. rewrite Ht. reflexivity.
  - replace (Z.of_nat (length constants) <=? Z.min i LLONG_MAX) with true
      by (symmetry; apply Z.leb_le; lia).
    reflexivity.
Qed.

(** The index [2^63] is read as [2^63 - 1], and that is what the message
    shows. *)
Lemma constant_index_saturated :
  ConstantTableValue_attr [] no_range empty_Method "c9223372036854775808"
  <> throw (index_out_of_bounds_error no_range 9223372036854775808 0).
Proof. vm_compute. intros H. discriminate H. Qed.

Lemma saturated_index_message :
  ConstantTableValue_attr [] no_range empty_Method "c9223372036854775808"
  = throw (index_out_of_bounds_error no_range 9223372036854775807 0).
Proof. vm_compute. reflexivity. Qed.

Lemma constant_index_bounds_witness :
  (exists t, sample_constants !! Z.to_nat 2 = Some t /\
     ConstantTableValue_attr sample_constants no_range empty_Method "c2"
     = ret (SimpleValue (node_output 0),
            snd (insertConstant (IValue_Tensor t) (Some no_range) empty_Method)))
  /\ ConstantTableValue_attr sample_constants no_range empty_Method "c7"
     = throw (index_out_of_bounds_error no_range 7 4).
Proof.
  split.
  - apply (proj1 (constant_index_bounds sample_constants no_range empty_Method
                    (Decimal.D2 Decimal.Nil)
                    ltac:(discriminate) ltac:(vm_compute; discriminate))).
    reflexivity.
  - apply (proj2 (constant_index_bounds sample_constants no_range empty_Method
                    (Decimal.D7 Decimal.Nil)
                    ltac:(discriminate) ltac:(vm_compute; discriminate))).
    vm_compute. discriminate.
Defined.

(** ** Resolution on a module *)

Lemma find_method_has_field (M : Module) (field : string) :
  has_field M field ns_method = bool_decide (is_Some (find_method M field)).
Proof.
  unfold has_field, find_method.
  induction (methods M) as [|e l IH]; simpl; [reflexivity|].
  destruct (String.eqb _ _); simpl; [reflexivity | exact IH].
Qed.

(** C2.  [ModuleAccessorValue::attr] returns the first match in the order
    submodule, parameter, buffer, attribute, method: an accessor over the
    submodule, the interned slot of the parameter or buffer, the interned
    slot of the attribute with its declared type, or the method bound to
    the accessor the call was made on.  When no namespace has the field it
    reports [unknown attr: <field>] at the location of the access. *)
Theorem resolution_first_match (module : ModulePtr) (M : Module)
    (loc : SourceRange) (m : Method) (field : string) :
  match first_match M field with
  | Some ns_submodule =>
      exists v, find_module M field = Some v /\
        ModuleAccessorValue_attr module M loc m field
        = ret (ModuleAccessorValue v, m)
  | Some ns_parameter =>
      exists v, find_parameter M field = Some v /\
        ModuleAccessorValue_attr module M loc m field
        = ret (SimpleValue (fst (get_or_add_parameter (nv_slot v) m)),
               snd (get_or_add_parameter (nv_slot v) m))
  | Some ns_buffer =>
      exists v, find_buffer M field = Some v /\
        ModuleAccessorValue_attr module M loc m field
        = ret (SimpleValue (fst (get_or_add_parameter (nv_slot v) m)),
               snd (get_or_add_parameter (nv_slot v) m))
  | Some ns_attribute =>
      exists v, find_attribute M field = Some v /\
        ModuleAccessorValue_attr module M loc m field
        = ret (SimpleValue (fst (get_or_add_attribute (nv_type v) (nv_slot v) m)),
               snd (get_or_add_attribute (nv_type v) (nv_slot v) m))
  | Some ns_method =>
      ModuleAccessorValue_attr module M loc m field
      = ret (MethodValue (ModuleAccessorValue module)
               {| method_owner := module; method_name := field |}, m)
  | None =>
      ModuleAccessorValue_attr module M loc m field
      = throw (ErrorReport loc ("unknown attr: " +:+ field))
  end.
Proof.
  unfold first_match, resolution_order. cbn [List.find].
  rewrite find_method_has_field. cbn [has_field].
  unfold ModuleAccessorValue_attr, find_module, find_parameter, find_buffer,
    find_attribute.
  destruct (modules M !! field) as [v|] eqn:Hm.
  { rewrite bool_decide_eq_true_2 by eauto. eauto. }
  rewrite bool_decide_eq_false_2 by (intros [? ?]; discriminate).
  destruct (parameters M !! field) as [v|] eqn:Hp.
  { rewrite bool_decide_eq_true_2 by eauto. exists v. split; [reflexivity|].
    destruct (get_or_add_parameter _ _); reflexivity. }
  rewrite bool_decide_eq_false_2 by (intros [? ?]; discriminate).
  destruct (buffers M !! field) as [v|] eqn:Hb.
  { rewrite bool_decide_eq_true_2 by eauto. exists v. split; [reflexivity|].
    destruct (get_or_add_parameter _ _); reflexivity. }
  rewrite bool_decide_eq_false_2 by (intros [? ?]; discriminate).
  destruct (attributes M !! field) as [v|] eqn:Ha.
  { rewrite bool_decide_eq_true_2 by eauto. exists v. split; [reflexivity|].
    destruct (get_or_add_attribute _ _ _); reflexivity. }
  rewrite bool_decide_eq_false_2 by (intros [? ?]; discriminate).
  destruct (find_method M field) as [e|] eqn:He.
  { rewrite bool_decide_eq_true_2 by eauto. reflexivity. }
  rewrite bool_decide_eq_false_2 by (intros [? ?]; discriminate).
  reflexivity.
Qed.

(** ** Interning of slots *)

Lemma find_slot_app_Some (slot : SlotPtr) (l l' : list (SlotPtr * nat)) (i : nat) :
  find_slot slot l = Some i -> find_slot slot (l ++ l') = Some i.
Proof.
  induction l as [|[s j] l IH]; simpl; [discriminate|].
  destruct (Nat.eqb s slot); auto.
Qed.

Lemma find_slot_app_None (slot : SlotPtr) (l l' : list (SlotPtr * nat)) :
  find_slot slot l = None -> find_slot slot (l ++ l') = find_slot slot l'.
Proof.
  induction l as [|[s j] l IH]; simpl; [reflexivity|].
  destruct (Nat.eqb s slot); [discriminate | auto].
Qed.

Lemma interned_after (type : TypePtr) (slot : SlotPtr) (m : Method) :
  exists i,
    fst (get_or_add_attribute type slot m) = graph_input i /\
    find_slot slot (initial_ivalue_index (snd (get_or_add_attribute type slot m)))
    = Some i.
Proof.
  unfold get_or_add_attribute.
  destruct (find_slot slot (initial_ivalue_index m)) as [i|] eqn:Hfind; simpl.
  - eauto.
  - eexists; split; [reflexivity|].
    rewrite find_slot_app_None by assumption. simpl.
    rewrite Nat.eqb_refl. reflexivity.
Qed.

Lemma interned_again (type : TypePtr) (slot : SlotPtr) (m : Method) (i : nat) :
  find_slot slot (initial_ivalue_index m) = Some i ->
  get_or_add_attribute type slot m = (graph_input i, m).
Proof. intros H. unfold get_or_add_attribute. rewrite H. reflexivity. Qed.

Lemma method_step_keeps_slot (m m' : Method) (slot : SlotPtr) (i : nat) :
  method_step m m' ->
  find_slot slot (initial_ivalue_index m) = Some i ->
  find_slot slot (initial_ivalue_index m') = Some i.
Proof.
  intros Hstep Hfind. destruct Hstep as [type slot' m | val loc m].
  - unfold get_or_add_attribute.
    destruct (find_slot slot' (initial_ivalue_index m)); simpl; [assumption|].
    apply find_slot_app_Some; assumption.
  - exact Hfind.
Qed.

Lemma method_steps_keep_slot (m m' : Method) (slot : SlotPtr) (i : nat) :
  rtc method_step m m' ->
  find_slot slot (initial_ivalue_index m) = Some i ->
  find_slot slot (initial_ivalue_index m') = Some i.
Proof.
  induction 1 as [|m1 m2 m3 Hstep _ IH]; [auto|].
  intros H. apply IH. eapply method_step_keeps_slot; eassumption.
Qed.

(** The slot a field resolves to, when it resolves to one. *)
Lemma resolves_to_slot (module : ModulePtr) (M : Module) (loc : SourceRange)
    (m m1 : Method) (field : string) (v : Value) :
  ModuleAccessorValue_attr module M loc m field = ret (SimpleValue v, m1) ->
  exists type slot,
    get_or_add_attribute type slot m = (v, m1) /\
    forall loc' m',
      ModuleAccessorValue_attr module M loc' m' field
      = ret (SimpleValue (fst (get_or_add_attribute type slot m')),
             snd (get_or_add_attribute type slot m')).
Proof.
  unfold ModuleAccessorValue_attr, get_or_add_parameter.
  destruct (find_module M field); [discriminate|].
  destruct (find_parameter M field) as [nv|].
  { intros H. exists TensorType, (nv_slot nv).
    destruct (get_or_add_attribute TensorType (nv_slot nv) m) as [v0 m0].
    injection H as <- <-. split; [reflexivity|].
    intros loc' m'. destruct (get_or_add_attribute _ _ m'); reflexivity. }
  destruct (find_buffer M field) as [nv|].
  { intros H. exists TensorType, (nv_slot nv).
    destruct (get_or_add_attribute TensorType (nv_slot nv) m) as [v0 m0].
    injection H as <- <-. split; [reflexivity|].
    intros loc' m'. destruct (get_or_add_attribute _ _ m'); reflexivity. }
  destruct (find_attribute M field) as [nv|].
  { intros H. exists (nv_type nv), (nv_slot nv).
    destruct (get_or_add_attribute (nv_type nv) (nv_slot nv) m) as [v0 m0].
    injection H as <- <-. split; [reflexivity|].
    intros loc' m'. destruct (get_or_add_attribute _ _ m'); reflexivity. }
  destruct (find_method M field); discriminate.
Qed.

(** C8.  Once a field of a module has resolved to a slot reference while a
    method is compiled, resolving the same field again later in the same
    method, after any number of further internings and constant
    insertions, yields the same reference and leaves the method as it is:
    no second graph input is made for the slot. *)
Theorem slot_interning_idempotent (module : ModulePtr) (M : Module)
    (loc loc' : SourceRange) (m m1 m2 : Method) (field : string) (v : Value) :
  ModuleAccessorValue_attr module M loc m field = ret (SimpleValue v, m1) ->
  rtc method_step m1 m2 ->
  ModuleAccessorValue_attr module M loc' m2 field = ret (SimpleValue v, m2).
Proof.
  intros Hfirst Hsteps.
  destruct (resolves_to_slot _ _ _ _ _ _ _ Hfirst) as (type & slot & Hint & Hagain).
  rewrite Hagain.
  destruct (interned_after type slot m) as (i & Hv & Hi).
  rewrite Hint in Hv, Hi. simpl in Hv, Hi. subst v.
  rewrite (interned_again type slot m2 i); [reflexivity|].
  eapply method_steps_keep_slot; eassumption.
Qed.

Lemma slot_interning_idempotent_witness :
  ModuleAccessorValue_attr 0 sample_Module no_range
    (snd (insertConstant (IValue_Double numeric_limits_infinity) None
            (snd (get_or_add_attribute TensorType 7 empty_Method))))
    "weight"
  = ret (SimpleValue (graph_input 0),
         snd (insertConstant (IValue_Double numeric_limits_infinity) None
                (snd (get_or_add_attribute TensorType 7 empty_Method)))).
Proof.
  apply (slot_interning_idempotent 0 sample_Module no_range no_range
           empty_Method
           (snd (get_or_add_attribute TensorType 7 empty_Method))).
  - reflexivity.
  - eapply rtc_l; [apply step_constant | apply rtc_refl].
Defined.

(** ** The version header *)

Lemma digits_are_integral (d : Decimal.uint) (r : SourceRange) :
  isIntegral (Const_create r (NilEmpty.string_of_uint d)) = true.
Proof.
  unfold isIntegral, isFloatingPoint, Const_create. cbn [const_text].
  induction d; simpl; auto.
Qed.

(** C3, as amended.  On a source that starts with the line
    [op_version_set = N], where [N] is written with one or more decimal
    digits and is at most [2^63 - 1], [parseVersionNumber] returns [N] and
    leaves the lexer right after the line end.  On a source that does not
    start with such a line (another first token, another name, a missing
    [=], number or line end, or a number with a fraction or an exponent) it
    throws an [ErrorReport]. *)
Theorem version_header_parsing :
  (forall (L rest : Lexer) (d : Decimal.uint),
      is_version_header L (NilEmpty.string_of_uint d) rest ->
      d <> Decimal.Nil ->
      Z.of_N (N.of_uint d) <= CLib.LLONG_MAX ->
      parseVersionNumber L = ret (Z.of_N (N.of_uint d), rest))
  /\
  (forall (L : Lexer),
      (forall version_text rest,
          is_version_header L version_text rest ->
          isIntegral (Const_create (range (cur rest)) version_text) = false) ->
      exists r what, parseVersionNumber L = throw (ErrorReport r what)).
Proof.
  split.
  - intros L rest d (t1 & t2 & t3 & t4 & -> & Hk1 & Hn & Hk2 & Hk3 & Ht & Hk4)
      Hd Hmax.
    unfold parseVersionNumber, expect. cbn [cur tail bind ret].
    repeat (rewrite decide_True by assumption; cbn [cur tail bind ret]).
    rewrite Hn, Ht. cbn [negb String.eqb Ascii.eqb].
    replace ("op_version_set" =? "op_version_set")%string with true by reflexivity.
    cbn [negb]. rewrite digits_are_integral. cbn [negb].
    unfold asIntegral, Const_create. cbn [const_text].
    rewrite stoll_digits by assumption. cbn [bind ret].
    rewrite to_size_t_small; [reflexivity|].
    split; [apply N2Z.is_nonneg | assumption].
  - intros L Hnot.
    unfold parseVersionNumber, expect.
    destruct (decide (kind (cur L) = TK_IDENT)) as [Hk1|]; [|cbn; eauto].
    destruct L as [|t1 L]; [discriminate Hk1|]. cbn [cur tail bind ret] in *.
    destruct (decide (kind (cur L) = TK_CHAR "=")) as [Hk2|]; [|cbn; eauto].
    destruct L as [|t2 L]; [discriminate Hk2|]. cbn [cur tail bind ret] in *.
    destruct (decide (kind (cur L) = TK_NUMBER)) as [Hk3|]; [|cbn; eauto].
    destruct L as [|t3 L]; [discriminate Hk3|]. cbn [cur tail bind ret] in *.
    destruct (decide (kind (cur L) = TK_NEWLINE)) as [Hk4|]; [|cbn; eauto].
    destruct L as [|t4 L]; [discriminate Hk4|]. cbn [cur tail bind ret] in *.
    destruct (String.eqb (text t1) "op_version_set") eqn:Hname; cbn [negb];
      [|cbn; eauto].
    apply String.eqb_eq in Hname.
    rewrite (Hnot (text t3) L); [cbn; eauto|].
    exists t1, t2, t3, t4. repeat split; assumption.
Qed.

(** A version of [2^64] does not fit the result type. *)
Lemma version_beyond_int64 :
  parseVersionNumber (version_header "18446744073709551616")
  <> ret (18446744073709551616, []).
Proof. vm_compute. intros H. discriminate H. Qed.

Lemma version_2_64_thrown :
  parseVersionNumber (version_header "18446744073709551616")
  = throw std_out_of_range.
Proof. vm_compute. reflexivity. Qed.

Lemma version_fits_size_t (L L' : Lexer) (version : Z) :
  parseVersionNumber L = ret (version, L') ->
  0 <= version < CLib.SIZE_MODULUS.
Proof.
  unfold parseVersionNumber.
  destruct (expect TK_IDENT L) as [|[name L1]]; cbn [bind]; [discriminate|].
  destruct (expect _ L1) as [|[t2 L2]]; cbn [bind]; [discriminate|].
  destruct (expect _ L2) as [|[t3 L3]]; cbn [bind]; [discriminate|].
  destruct (expect _ L3) as [|[t4 L4]]; cbn [bind]; [discriminate|].
  destruct (negb _); [discriminate|].
  destruct (negb _); [discriminate|].
  destruct (asIntegral _) as [|v]; cbn [bind]; [discriminate|].
  intros [= <- _]. apply Z.mod_pos_bound. reflexivity.
Qed.

Lemma version_header_parsing_witness :
  parseVersionNumber (version_header "3") = ret (3, [])
  /\ exists r what,
       parseVersionNumber (version_header "3.5") = throw (ErrorReport r what).
Proof.
  split.
  - apply (proj1 version_header_parsing (version_header "3") []
             (Decimal.D3 Decimal.Nil)).
    + exists (token TK_IDENT "op_version_set"), (token (TK_CHAR "=") "="),
        (token TK_NUMBER "3"), (token TK_NEWLINE "").
      repeat split; reflexivity.
    + discriminate.
    + vm_compute. discriminate.
  - apply (proj2 version_header_parsing (version_header "3.5")).
    intros version_text rest (t1 & t2 & t3 & t4 & Heq & _ & _ & _ & _ & Ht & _).
    injection Heq as _ _ <- _ <-. subst version_text. reflexivity.
Defined.

(** ** The environment *)

Lemma importer_environment (src : Lexer) (constant_table : list Tensor)
    (importer : SourceImporter) :
  SourceImporter_new src constant_table = inr importer ->
  exists version L,
    parseVersionNumber src = inr (version, L) /\
    parser_ importer = L /\
    env_ importer = make_env version constant_table /\
    resolver_ importer = make_resolver (make_env version constant_table).
Proof.
  unfold SourceImporter_new.
  destruct (parseVersionNumber src) as [e|[version L]]; cbn; [discriminate|].
  intros [= <-]. exists version, L. repeat split.
Qed.

Lemma make_resolver_lookup (env : gmap string SugaredValue) (name : string)
    (m : Method) (loc : SourceRange) :
  make_resolver env name m loc = env !! name.
Proof. unfold make_resolver. destruct (env !! name); reflexivity. Qed.

Lemma make_env_names (version : Z) (constant_table : list Tensor) (name : string) :
  is_Some (make_env version constant_table !! name) <-> name ∈ environment_names.
Proof.
  unfold make_env.
  match goal with
  | |- is_Some (list_to_map ?l !! _) <-> _ =>
      change environment_names with (l.*1); generalize l
  end.
  intros l. split.
  - intros Hsome. destruct (decide (name ∈ l.*1)) as [|Hnot]; [assumption|].
    apply (not_elem_of_list_to_map_1 (M := gmap string)) in Hnot.
    rewrite Hnot in Hsome. destruct Hsome; discriminate.
  - intros Hin.
    destruct (list_to_map l !! name) as [v|] eqn:Hlookup; [eauto|].
    apply not_elem_of_list_to_map_2 in Hlookup. contradiction.
Qed.

(** C7.  The resolver of a source importer returns a value exactly for the
    names [torch], [ops], [CONSTANTS], [fork], [annotate], [inf] and [nan];
    for every other name it returns the null result, and it has no way to
    throw. *)
Theorem environment_fixed_names (src : Lexer) (constant_table : list Tensor)
    (importer : SourceImporter) (name : string) (m : Method) (loc : SourceRange) :
  SourceImporter_new src constant_table = inr importer ->
  (is_Some (resolver_ importer name m loc) <-> name ∈ environment_names)
  /\ (name ∉ environment_names -> resolver_ importer name m loc = None).
Proof.
  intros Hnew.
  destruct (importer_environment _ _ _ Hnew) as (version & L & _ & _ & _ & ->).
  rewrite make_resolver_lookup.
  pose proof (make_env_names version constant_table name) as Hnames.
  split; [exact Hnames|].
  intros Hnot. destruct (make_env version constant_table !! name) eqn:E; [|reflexivity].
  exfalso. apply Hnot, Hnames. eauto.
Qed.

(** C9.  Whatever the version header and the constant table, the resolver
    maps [inf] to the constant value holding positive infinity and [nan] to
    the constant value holding a quiet NaN, and [ConstantValue::asValue]
    inserts the held value as a constant of the graph. *)
Theorem inf_nan_literals (src : Lexer) (constant_table : list Tensor)
    (importer : SourceImporter) (m : Method) (loc : SourceRange) :
  SourceImporter_new src constant_table = inr importer ->
  resolver_ importer "inf" m loc
  = Some (ConstantValue (IValue_Double (double_infinity false)))
  /\ resolver_ importer "nan" m loc
     = Some (ConstantValue (IValue_Double (double_nan quiet)))
  /\ forall (value_ : IValue) (m' : Method),
       nodes (graph (snd (ConstantValue_asValue value_ loc m')))
       = nodes (graph m') ++ [ {| node_value := value_; node_range := None |} ].
Proof.
  intros Hnew.
  destruct (importer_environment _ _ _ Hnew) as (version & L & _ & _ & _ & ->).
  rewrite !make_resolver_lookup.
  repeat split.
Qed.

Lemma environment_fixed_names_witness :
  (is_Some (resolver_ sample_importer "self" empty_Method no_range)
   <-> "self" ∈ environment_names)
  /\ ("self" ∉ environment_names ->
      resolver_ sample_importer "self" empty_Method no_range = None).
Proof.
  apply (environment_fixed_names (version_header "3") sample_constants
           sample_importer "self" empty_Method no_range).
  reflexivity.
Defined.

Lemma inf_nan_literals_witness :
  resolver_ sample_importer "inf" empty_Method no_range
  = Some (ConstantValue (IValue_Double (double_infinity false)))
  /\ resolver_ sample_importer "nan" empty_Method no_range
     = Some (ConstantValue (IValue_Double (double_nan quiet)))
  /\ forall (value_ : IValue) (m' : Method),
       nodes (graph (snd (ConstantValue_asValue value_ no_range m')))
       = nodes (graph m') ++ [ {| node_value := value_; node_range := None |} ].
Proof.
  apply (inf_nan_literals (version_header "3") sample_constants
           sample_importer empty_Method no_range).
  reflexivity.
Defined.

(** ** The drivers *)

Section DriverFacts.
Variable parseFunction : bool -> Lexer -> Result (Def * Lexer).
Variable parseClass : Lexer -> Result (ClassDef * Lexer).
Variable defineMethods :
  ModulePtr -> list Def -> list Resolver -> Self -> World -> Result unit * World.
Hypothesis parseFunction_consumes :
  forall is_method L def L',
    parseFunction is_method L = inr (def, L') -> (length L' < length L)%nat.
Hypothesis parseClass_consumes :
  forall L class_def L',
    parseClass L = inr (class_def, L') -> (length L' < length L)%nat.

Lemma import_methods_loop_step (resolver : Resolver) (L : Lexer)
    (definitions : list Def) (resolvers : list Resolver) :
  import_methods_loop parseFunction parseFunction_consumes resolver L
    definitions resolvers
  = if decide (kind (cur L) = TK_EOF) then ret (definitions, resolvers)
    else match parseFunction true L with
         | inl e => throw e
         | inr (def, L') =>
             import_methods_loop parseFunction parseFunction_consumes resolver
               L' (definitions ++ [def]) (resolvers ++ [resolver])
         end.
Proof.
  rewrite import_methods_loop_equation_1.
  destruct (decide (kind (cur L) = TK_EOF)) as [Heof|Hmore].
  - rewrite import_methods_loop_clause_1_equation_1. reflexivity.
  - rewrite import_methods_loop_clause_1_equation_2.
    destruct (inspect (parseFunction true L)) as [[e|[def L']] Hparse].
    + rewrite import_methods_loop_clause_1_clause_2_equation_1, Hparse.
      reflexivity.
    + rewrite import_methods_loop_clause_1_clause_2_equation_2, Hparse.
      reflexivity.
Qed.

Lemma import_libs_loop_step (resolver : Resolver) (L : Lexer) (W : World) :
  import_libs_loop parseClass defineMethods parseClass_consumes resolver L W
  = if decide (kind (cur L) = TK_EOF) then (ret tt, W)
    else match parseClass L with
         | inl e => (throw e, W)
         | inr (class_def, L') =>
             let '(definitions, resolvers) := class_methods resolver class_def in
             let '(mod_, W1) := make_shared_Module W in
             let '(class_type, W2) :=
               ClassType_create (class_name class_def) mod_ W1 in
             match defineMethods mod_ definitions resolvers
                     (Self_class class_type) W2 with
             | (inl e, W3) => (throw e, W3)
             | (inr _, W3) =>
                 import_libs_loop parseClass defineMethods parseClass_consumes
                   resolver L' W3
             end
         end.
Proof.
  rewrite import_libs_loop_equation_1.
  destruct (decide (kind (cur L) = TK_EOF)) as [Heof|Hmore].
  - rewrite import_libs_loop_clause_1_equation_1. reflexivity.
  - rewrite import_libs_loop_clause_1_equation_2.
    destruct (inspect (parseClass L)) as [[e|[class_def L']] Hparse].
    + rewrite import_libs_loop_clause_1_clause_2_equation_1, Hparse.
      reflexivity.
    + rewrite import_libs_loop_clause_1_clause_2_equation_2, Hparse.
      reflexivity.
Qed.

Lemma loop_collects (resolver : Resolver) (L : Lexer) (defs : list Def) :
  defines_methods parseFunction L defs ->
  forall definitions resolvers,
    import_methods_loop parseFunction parseFunction_consumes resolver L
      definitions resolvers
    = ret (definitions ++ defs, resolvers ++ map (fun _ => resolver) defs).
Proof.
  induction 1 as [L Heof | L def L' defs Hmore Hparse _ IH];
    intros definitions resolvers; rewrite import_methods_loop_step.
  - rewrite decide_True by assumption. cbn [map]. rewrite !app_nil_r.
    reflexivity.
  - rewrite decide_False by assumption. rewrite Hparse, IH.
    cbn [map]. rewrite <- !app_assoc. reflexivity.
Qed.

Lemma loop_fails (resolver : Resolver) (L : Lexer) (e : Exception) :
  fails_to_parse parseFunction L e ->
  forall definitions resolvers,
    import_methods_loop parseFunction parseFunction_consumes resolver L
      definitions resolvers
    = throw e.
Proof.
  induction 1 as [L e Hmore Hparse | L def L' e Hmore Hparse _ IH];
    intros definitions resolvers; rewrite import_methods_loop_step;
    rewrite decide_False by assumption; rewrite Hparse; auto.
Qed.

Lemma importer_of_header (src : Lexer) (constant_table : list Tensor)
    (version : Z) (L : Lexer) :
  parseVersionNumber src = inr (version, L) ->
  SourceImporter_new src constant_table
  = inr {| parser_ := L;
           constant_table_ := constant_table;
           env_ := make_env version constant_table;
           resolver_ := make_resolver (make_env version constant_table) |}.
Proof. intros H. unfold SourceImporter_new. rewrite H. reflexivity. Qed.

(** C10.  When one of the definitions of a source does not parse,
    [import_methods] throws the parser's error before
    [defineMethodsInModule] is called: whatever the compiler would do, no
    module of the store has changed. *)
Theorem parse_failure_attaches_nothing (mod_ : ModulePtr) (src : Lexer)
    (constant_table : list Tensor) (W : World) (version : Z) (L : Lexer)
    (e : Exception) :
  parseVersionNumber src = inr (version, L) ->
  fails_to_parse parseFunction L e ->
  import_methods parseFunction defineMethods parseFunction_consumes
    mod_ src constant_table W
  = (throw e, W).
Proof.
  intros Hheader Hfails. unfold import_methods.
  rewrite (importer_of_header _ _ _ _ Hheader). cbn [parser_ resolver_].
  rewrite (loop_fails _ _ _ Hfails). reflexivity.
Qed.

Lemma import_methods_calls_compiler (mod_ : ModulePtr) (src : Lexer)
    (constant_table : list Tensor) (W : World) (version : Z) (L : Lexer)
    (defs : list Def) :
  parseVersionNumber src = inr (version, L) ->
  defines_methods parseFunction L defs ->
  import_methods parseFunction defineMethods parseFunction_consumes
    mod_ src constant_table W
  = defineMethods mod_ defs
      (map (fun _ => make_resolver (make_env version constant_table)) defs)
      (Self_sugared (ModuleAccessorValue mod_)) W.
Proof.
  intros Hheader Hdefs. unfold import_methods.
  rewrite (importer_of_header _ _ _ _ Hheader). cbn [parser_ resolver_].
  rewrite (loop_collects _ _ _ Hdefs). reflexivity.
Qed.

End DriverFacts.

Section CompilerFacts.
Variable parseFunction : bool -> Lexer -> Result (Def * Lexer).
Variable parseClass : Lexer -> Result (ClassDef * Lexer).
Variable compile : Def -> Resolver -> Self -> World -> Result unit.
Hypothesis parseFunction_consumes :
  forall is_method L def L',
    parseFunction is_method L = inr (def, L') -> (length L' < length L)%nat.
Hypothesis parseClass_consumes :
  forall L class_def L',
    parseClass L = inr (class_def, L') -> (length L' < length L)%nat.

(** C5.  On a source whose definitions are the methods [f] and [g],
    [import_methods] hands the compiler exactly [f] and [g], each with the
    resolver of this source, and [self] bound to an accessor over the target
    module.  With both accepted by the compiler, the target module gains
    exactly the two methods, in this order, and nothing else changes. *)
Theorem import_methods_two (mod_ : ModulePtr) (M : Module) (src : Lexer)
    (constant_table : list Tensor) (W : World) (version : Z) (L : Lexer)
    (f g : Def) :
  let resolver := make_resolver (make_env version constant_table) in
  let self := Self_sugared (ModuleAccessorValue mod_) in
  let entry_f :=
    {| entry_def := f; entry_resolver := resolver; entry_self := self |} in
  let entry_g :=
    {| entry_def := g; entry_resolver := resolver; entry_self := self |} in
  parseVersionNumber src = inr (version, L) ->
  defines_methods parseFunction L [f; g] ->
  store W !! mod_ = Some M ->
  compile f resolver self W = inr tt ->
  compile g resolver self (attach_method mod_ entry_f W) = inr tt ->
  (forall defineMethods,
      import_methods parseFunction defineMethods parseFunction_consumes
        mod_ src constant_table W
      = defineMethods mod_ [f; g] [resolver; resolver] self W)
  /\
  exists W',
    import_methods parseFunction (defineMethodsInModule compile)
      parseFunction_consumes mod_ src constant_table W
    = (ret tt, W')
    /\ store W' !! mod_
       = Some {| modules := modules M; parameters := parameters M;
                 buffers := buffers M; attributes := attributes M;
                 methods := methods M ++ [entry_f; entry_g] |}
    /\ (forall other, other <> mod_ -> store W' !! other = store W !! other)
    /\ length (store W') = length (store W)
    /\ class_registry W' = class_registry W.
Proof.
  intros resolver self entry_f entry_g Hheader Hdefs Hmod Hf Hg.
  assert (Hcall : forall defineMethods,
      import_methods parseFunction defineMethods parseFunction_consumes
        mod_ src constant_table W
      = defineMethods mod_ [f; g] [resolver; resolver] self W).
  { intros defineMethods.
    apply (import_methods_calls_compiler parseFunction defineMethods
             parseFunction_consumes mod_ src constant_table W version L [f; g]);
      assumption. }
  split; [exact Hcall|].
  rewrite Hcall. cbn [defineMethodsInModule].
  fold entry_f. rewrite Hf. fold entry_g. rewrite Hg.
  eexists. split; [reflexivity|].
  cbn [attach_method store class_registry].
  repeat split.
  - rewrite !list_lookup_alter_eq, Hmod. cbn. unfold attach. cbn.
    rewrite <- app_assoc. reflexivity.
  - intros other Hother. rewrite !list_lookup_alter_ne by congruence.
    reflexivity.
  - rewrite !length_alter. reflexivity.
Qed.

Lemma attach_fresh (l : list Module) (e : MethodEntry) (M : Module)
    (l' : list Module) :
  alter (attach e) (length l) (l ++ M :: l') = l ++ attach e M :: l'.
Proof.
  rewrite <- (Nat.add_0_r (length l)), alter_app_r. reflexivity.
Qed.

Lemma attach_fresh_after (l : list Module) (e : MethodEntry) (M0 M : Module) :
  alter (attach e) (S (length l)) (l ++ [M0; M]) = l ++ [M0; attach e M].
Proof.
  rewrite <- (Nat.add_1_r (length l)), alter_app_r. reflexivity.
Qed.

Lemma attach_empty (e : MethodEntry) :
  attach e empty_Module
  = {| modules := ∅; parameters := ∅; buffers := ∅; attributes := ∅;
       methods := [e] |}.
Proof. reflexivity. Qed.

Lemma class_methods_one (resolver : Resolver) (c : ClassDef) (m : Def) :
  class_defs c = [m] -> class_methods resolver c = ([m], [resolver]).
Proof. intros H. unfold class_methods. rewrite H. reflexivity. Qed.

(** C6.  On a source that defines the classes [A], with the method [m],
    and [B], with the method [n], [import_libs] allocates two new modules
    at different addresses, binds [self] of each class to the class type
    of its name over its own module, and compiles [m] against the first
    and [n] against the second: each new module has exactly one method and
    no submodule, and the modules already in the store are as before. *)
Theorem import_libs_two (src : Lexer) (constant_table : list Tensor)
    (W : World) (version : Z) (L : Lexer) (A B : ClassDef) (m n : Def) :
  let resolver := make_resolver (make_env version constant_table) in
  let ptr_A := length (store W) in
  let ptr_B := S (length (store W)) in
  let type_A :=
    {| class_type_name := class_name A; class_type_module := ptr_A |} in
  let type_B :=
    {| class_type_name := class_name B; class_type_module := ptr_B |} in
  let entry_m :=
    {| entry_def := m; entry_resolver := resolver;
       entry_self := Self_class type_A |} in
  let entry_n :=
    {| entry_def := n; entry_resolver := resolver;
       entry_self := Self_class type_B |} in
  let module_A :=
    {| modules := ∅; parameters := ∅; buffers := ∅; attributes := ∅;
       methods := [entry_m] |} in
  let module_B :=
    {| modules := ∅; parameters := ∅; buffers := ∅; attributes := ∅;
       methods := [entry_n] |} in
  parseVersionNumber src = inr (version, L) ->
  defines_classes parseClass L [A; B] ->
  class_defs A = [m] ->
  class_defs B = [n] ->
  compile m resolver (Self_class type_A)
    {| store := store W ++ [empty_Module];
       class_registry := class_registry W ++ [type_A] |} = inr tt ->
  compile n resolver (Self_class type_B)
    {| store := store W ++ [module_A; empty_Module];
       class_registry := class_registry W ++ [type_A; type_B] |} = inr tt ->
  import_libs parseClass (defineMethodsInModule compile) parseClass_consumes
    src constant_table W
  = (ret tt,
     {| store := store W ++ [module_A; module_B];
        class_registry := class_registry W ++ [type_A; type_B] |})
  /\ ptr_A <> ptr_B
  /\ (store W ++ [module_A; module_B]) !! ptr_A = Some module_A
  /\ (store W ++ [module_A; module_B]) !! ptr_B = Some module_B
  /\ (forall old M, store W !! old = Some M ->
        (store W ++ [module_A; module_B]) !! old = Some M).
Proof.
  intros resolver ptr_A ptr_B type_A type_B entry_m entry_n module_A module_B
    Hheader Hclasses HA HB Hm Hn.
  inversion Hclasses as [|L0 A0 L1 rest HmoreA HparseA Hrest]; subst.
  inversion Hrest as [|L0 B0 L2 rest HmoreB HparseB Hend]; subst.
  inversion Hend as [L0 Heof|]; subst.
  split; [|repeat split].
  - subst module_A module_B entry_m entry_n type_A type_B ptr_A ptr_B.
    unfold import_libs.
    rewrite (importer_of_header _ _ _ _ Hheader). cbn [parser_ resolver_].
    fold resolver.
    rewrite import_libs_loop_step, decide_False, HparseA by assumption.
    rewrite (class_methods_one resolver A m HA).
    cbn [make_shared_Module ClassType_create store class_registry
         defineMethodsInModule].
    rewrite Hm. cbn [ret]. unfold attach_method. cbn [store class_registry].
    rewrite attach_fresh, attach_empty.
    rewrite import_libs_loop_step, decide_False, HparseB by assumption.
    rewrite (class_methods_one resolver B n HB).
    cbn [make_shared_Module ClassType_create store class_registry
         defineMethodsInModule].
    rewrite length_app, Nat.add_1_r. cbn [length].
    rewrite <- !app_assoc. cbn [app].
    rewrite Hn. cbn [ret]. unfold attach_method. cbn [store class_registry].
    rewrite (attach_fresh_after (store W)), attach_empty.
    rewrite import_libs_loop_step, decide_True by assumption.
    reflexivity.
  - unfold ptr_A, ptr_B. lia.
  - unfold ptr_A. rewrite lookup_app_r by lia.
    rewrite Nat.sub_diag. reflexivity.
  - unfold ptr_B. rewrite lookup_app_r by lia.
    replace (S (length (store W)) - length (store W))%nat with 1%nat by lia.
    reflexivity.
  - intros old M Hold. apply lookup_app_l_Some. assumption.
Qed.
End CompilerFacts.

(** ** The sample parser meets the interface *)

Lemma sample_parseFunction_consumes (is_method : bool) (L : Lexer) (def : Def)
    (L' : Lexer) :
  sample_parseFunction is_method L = inr (def, L') ->
  (length L' < length L)%nat.
Proof.
  unfold sample_parseFunction.
  destruct L as [|t1 [|t2 [|t3 L0]]]; try discriminate.
  destruct (decide _); [|discriminate].
  intros [= _ <-]. simpl. lia.
Qed.

Lemma sample_parseClass_consumes (L : Lexer) (class_def : ClassDef)
    (L' : Lexer) :
  sample_parseClass L = inr (class_def, L') -> (length L' < length L)%nat.
Proof.
  unfold sample_parseClass.
  destruct L as [|t1 [|t2 [|t3 L0]]]; try discriminate.
  destruct (decide _); [|discriminate].
  destruct (sample_parseFunction true L0) as [e|[d L1]] eqn:Hparse;
    cbn [bind ret]; [discriminate|].
  intros [= _ <-].
  apply sample_parseFunction_consumes in Hparse. simpl. lia.
Qed.

Lemma sample_header_parsed (rest : Lexer) :
  parseVersionNumber (version_header "3" ++ rest) = inr (3, rest).
Proof. reflexivity. Qed.

Lemma parse_failure_attaches_nothing_witness :
  import_methods sample_parseFunction (defineMethodsInModule sample_compile)
    sample_parseFunction_consumes 0
    (version_header "3" ++ def_line "f" ++ [token (TK_KEYWORD "def") "def"])
    sample_constants sample_World
  = (throw (ErrorReport no_range "expected a definition"), sample_World).
Proof.
  apply (parse_failure_attaches_nothing sample_parseFunction
           (defineMethodsInModule sample_compile)
           sample_parseFunction_consumes 0 _ sample_constants sample_World 3
           (def_line "f" ++ [token (TK_KEYWORD "def") "def"])).
  - reflexivity.
  - eapply fails_later; [discriminate | reflexivity |].
    apply fails_here; [discriminate | reflexivity].
Defined.

Lemma import_methods_two_witness :
  exists W',
    import_methods sample_parseFunction (defineMethodsInModule sample_compile)
      sample_parseFunction_consumes 0
      (version_header "3" ++ def_line "f" ++ def_line "g")
      sample_constants sample_World
    = (ret tt, W')
    /\ (methods <$> store W' !! 0%nat)
       = Some (map (fun name =>
                 {| entry_def := sample_def name;
                    entry_resolver := make_resolver (make_env 3 sample_constants);
                    entry_self := Self_sugared (ModuleAccessorValue 0) |})
               ["f"; "g"]).
Proof.
  destruct (import_methods_two sample_parseFunction sample_compile
              sample_parseFunction_consumes 0 sample_Module
              (version_header "3" ++ def_line "f" ++ def_line "g")
              sample_constants sample_World 3
              (def_line "f" ++ def_line "g")
              (sample_def "f") (sample_def "g"))
    as [_ (W' & Hrun & Hmod & _)].
  - reflexivity.
  - eapply defines_more; [discriminate | reflexivity |].
    eapply defines_more; [discriminate | reflexivity |].
    apply defines_end. reflexivity.
  - reflexivity.
  - reflexivity.
  - reflexivity.
  - exists W'. split; [exact Hrun|]. rewrite Hmod. reflexivity.
Defined.

Lemma import_libs_two_witness :
  let resolver := make_resolver (make_env 3 sample_constants) in
  let module_of name method ptr :=
    {| modules := ∅; parameters := ∅; buffers := ∅; attributes := ∅;
       methods :=
         [ {| entry_def := sample_def method; entry_resolver := resolver;
              entry_self :=
                Self_class {| class_type_name := name;
                              class_type_module := ptr |} |} ] |} in
  import_libs sample_parseClass (defineMethodsInModule sample_compile)
    sample_parseClass_consumes
    (version_header "3" ++ class_line "A" ++ def_line "m"
       ++ class_line "B" ++ def_line "n")
    sample_constants sample_World
  = (ret tt,
     {| store := [sample_Module; module_of "A" "m" 1%nat; module_of "B" "n" 2%nat];
        class_registry :=
          [ {| class_type_name := "A"; class_type_module := 1%nat |};
            {| class_type_name := "B"; class_type_module := 2%nat |} ] |}).
Proof.
  intros resolver module_of.
  apply (import_libs_two sample_parseClass sample_compile
           sample_parseClass_consumes
           (version_header "3" ++ class_line "A" ++ def_line "m"
              ++ class_line "B" ++ def_line "n")
           sample_constants sample_World 3
           (class_line "A" ++ def_line "m" ++ class_line "B" ++ def_line "n")
           (sample_class "A" "m") (sample_class "B" "n")
           (sample_def "m") (sample_def "n")).
  - reflexivity.
  - eapply classes_more; [discriminate | reflexivity |].
    eapply classes_more; [discriminate | reflexivity |].
    apply classes_end. reflexivity.
  - reflexivity.
  - reflexivity.
  - reflexivity.
  - reflexivity.
Defined.

(** * Further properties of the code *)

(** ** More on the constant table *)

Lemma append_String (c : ascii) (a b : string) :
  String c a +:+ b = String c (a +:+ b).
Proof. reflexivity. Qed.

Lemma append_empty (b : string) : "" +:+ b = b.
Proof. reflexivity. Qed.

Lemma isspace_not_nul (c : ascii) : isspace c = true -> (code c =? 0) = false.
Proof.
  unfold isspace. intros H. apply Z.eqb_neq. intros Hz. rewrite Hz in H.
  discriminate H.
Qed.

Lemma c_str_after_spaces (ws : list ascii) (s : string) :
  forallb isspace ws = true ->
  c_str (string_of_list_ascii ws +:+ s) = string_of_list_ascii ws +:+ c_str s.
Proof.
  induction ws as [|c ws IH]; cbn [forallb string_of_list_ascii]; rewrite ?append_String, ?append_empty;
    [reflexivity|].
  intros [Hc Hws]%andb_prop. cbn [c_str].
  rewrite (isspace_not_nul c Hc), IH by assumption. reflexivity.
Qed.

Lemma skip_space_spaces (ws : list ascii) (s : string) :
  forallb isspace ws = true ->
  skip_space (string_of_list_ascii ws +:+ s) = skip_space s.
Proof.
  induction ws as [|c ws IH]; cbn [forallb string_of_list_ascii]; rewrite ?append_String, ?append_empty;
    [reflexivity|].
  intros [Hc Hws]%andb_prop. cbn [skip_space]. rewrite Hc. auto.
Qed.

Lemma strtoll_padded_digits (ws : list ascii) (plus : bool) (d : Decimal.uint) :
  forallb isspace ws = true ->
  d <> Decimal.Nil ->
  strtoll (c_str (string_of_list_ascii ws
                  +:+ (if plus then "+" else "")
                  +:+ NilEmpty.string_of_uint d))
  = strtoll (c_str (NilEmpty.string_of_uint d)).
Proof.
  intros Hws Hd.
  rewrite strtoll_digits by assumption.
  rewrite c_str_after_spaces by assumption.
  assert (Hc : c_str ((if plus then "+" else "") +:+ NilEmpty.string_of_uint d)
               = (if plus then "+" else "") +:+ NilEmpty.string_of_uint d).
  { destruct plus; rewrite ?append_String, ?append_empty; cbn [c_str].
    - change (code "+" =? 0) with false. cbv iota. rewrite c_str_digits.
      reflexivity.
    - apply c_str_digits. }
  rewrite Hc. unfold strtoll, parse_integer.
  rewrite skip_space_spaces by assumption.
  destruct (digits_start d Hd) as [Hstart Hdigit].
  assert (Hsign : split_sign (skip_space ((if plus then "+" else "")
                                          +:+ NilEmpty.string_of_uint d))
                  = (false, NilEmpty.string_of_uint d)).
  { destruct plus; rewrite ?append_String, ?append_empty; [|exact Hstart].
    cbn [skip_space]. change (isspace "+") with false. cbv iota.
    reflexivity. }
  rewrite Hsign, Hdigit, scan_digits_uint.
  f_equal. unfold clamp_llong, LLONG_MIN, LLONG_MAX.
  pose proof (N2Z.is_nonneg (N.of_uint d)).
  destruct (Z.ltb_spec (Z.of_N (N.of_uint d)) (- 2 ^ 63)); [lia|].
  destruct (Z.ltb_spec (2 ^ 63 - 1) (Z.of_N (N.of_uint d))); lia.
Qed.

Lemma string_length_append (s1 s2 : string) :
  String.length (s1 +:+ s2) = (String.length s1 + String.length s2)%nat.
Proof.
  induction s1 as [|c s1 IH]; [reflexivity|].
  rewrite append_String. cbn [String.length]. rewrite IH. reflexivity.
Qed.

(** X1.  White space and a plus sign between the first character and the
    digits of a constant specifier are skipped by [strtoll]: the padded
    field gives exactly the result of the plain specifier [c<digits>]. *)
Theorem specifier_padding_ignored (constants : list Tensor) (loc : SourceRange)
    (m : Method) (ws : list ascii) (plus : bool) (d : Decimal.uint) :
  forallb CLib.isspace ws = true ->
  d <> Decimal.Nil ->
  ConstantTableValue_attr constants loc m
    (String "c" (string_of_list_ascii ws +:+ (if plus then "+" else "")
                 +:+ NilEmpty.string_of_uint d))
  = ConstantTableValue_attr constants loc m (specifier d).
Proof.
  intros Hws Hd.
  unfold ConstantTableValue_attr, specifier. cbn [advance1].
  rewrite strtoll_padded_digits by assumption.
  destruct (strtoll (c_str (NilEmpty.string_of_uint d))) as [offset end_] eqn:Hs.
  rewrite strtoll_digits in Hs by assumption. injection Hs as <- <-.
  pose proof (digits_length d Hd) as Hlen.
  replace ((String.length _ <? 2)%nat) with false.
  2:{ symmetry. apply Nat.ltb_ge. cbn [String.length].
      rewrite !string_length_append. lia. }
  replace ((String.length (String "c" (NilEmpty.string_of_uint d)) <? 2)%nat)
    with false by (symmetry; apply Nat.ltb_ge; cbn [String.length]; lia).
  reflexivity.
Qed.

(** X2.  When [ConstantTableValue::attr] fails, it throws one of its two
    error reports, at the location of the access: the specifier error for
    the field, or the index error for the offset [strtoll] read and the
    size of the table.  The table is never read out of its bounds. *)
Theorem constant_table_errors_located (constants : list Tensor)
    (loc : SourceRange) (m : Method) (field : string) (e : Exception) :
  ConstantTableValue_attr constants loc m field = throw e ->
  e = invalid_specifier_error loc field
  \/ e = index_out_of_bounds_error loc
           (fst (strtoll (c_str (advance1 field)))) (length constants).
Proof.
  intros H.
  pose proof (constant_table_indexed_in_bounds constants loc m field) as Hsafe.
  unfold ConstantTableValue_attr in *.
  destruct (strtoll (c_str (advance1 field))) as [offset end_]. cbn [fst].
  destruct (_ || _); [left; injection H as <-; reflexivity|].
  destruct (_ || _); [right; injection H as <-; reflexivity|].
  destruct (constants !! Z.to_nat offset) as [t|].
  - destruct (insertConstant _ _ _). discriminate H.
  - contradiction.
Qed.

(** X3.  When [ConstantTableValue::attr] succeeds, [strtoll] has read the
    whole rest of the field as an index inside the table, the result is
    the output of one new constant node that holds that entry and the
    location of the access, and the graph inputs and the interned slots of
    the method are as before. *)
Theorem constant_table_success (constants : list Tensor) (loc : SourceRange)
    (m m' : Method) (field : string) (v : SugaredValue) :
  ConstantTableValue_attr constants loc m field = ret (v, m') ->
  exists (i : nat) (t : Tensor),
    strtoll (c_str (advance1 field)) = (Z.of_nat i, "")
    /\ constants !! i = Some t
    /\ v = SimpleValue (node_output (length (nodes (graph m))))
    /\ nodes (graph m')
       = nodes (graph m) ++ [ {| node_value := IValue_Tensor t;
                                 node_range := Some loc |} ]
    /\ inputs (graph m') = inputs (graph m)
    /\ initial_ivalue_index m' = initial_ivalue_index m.
Proof.
  unfold ConstantTableValue_attr.
  destruct (strtoll (c_str (advance1 field))) as [offset end_].
  destruct (Nat.ltb_spec (String.length field) 2); cbn [orb]; [discriminate|].
  destruct (String.eqb_spec end_ "") as [->|]; cbn [negb]; [|discriminate].
  destruct (Z.ltb_spec offset 0) as [|Hpos]; cbn [orb]; [discriminate|].
  destruct (_ <=? _); [discriminate|].
  destruct (constants !! Z.to_nat offset) as [t|] eqn:Ht; [|discriminate].
  cbn. intros [= <- <-].
  exists (Z.to_nat offset), t. rewrite Z2Nat.id by assumption.
  repeat split; assumption.
Qed.

(** X4.  On an empty constant table every field is rejected with an error
    report at the location of the access. *)
Theorem empty_table_rejects_every_field (loc : SourceRange) (m : Method)
    (field : string) :
  exists what,
    ConstantTableValue_attr [] loc m field = throw (ErrorReport loc what).
Proof.
  unfold ConstantTableValue_attr.
  destruct (strtoll (c_str (advance1 field))) as [offset end_].
  destruct (_ || _); [eexists; reflexivity|].
  replace (Z.of_nat (length []) <=? to_size_t offset) with true.
  - rewrite orb_true_r. eexists; reflexivity.
  - symmetry. apply Z.leb_le. cbn [length Z.of_nat].
    apply Z.mod_pos_bound. reflexivity.
Qed.

Lemma strtoll_negative_digits (d : Decimal.uint) :
  d <> Decimal.Nil ->
  strtoll (c_str (String "-" (NilEmpty.string_of_uint d)))
  = (Z.max (- Z.of_N (N.of_uint d)) LLONG_MIN, "").
Proof.
  intros Hd. cbn [c_str]. change (code "-" =? 0) with false. cbv iota.
  rewrite c_str_digits. unfold strtoll, parse_integer.
  cbn [skip_space]. change (isspace "-") with false. cbv iota.
  cbn [split_sign]. change (code "-" =? 45) with true. cbv iota.
  destruct (digits_start d Hd) as [_ ->].
  rewrite scan_digits_uint. f_equal.
  pose proof (N2Z.is_nonneg (N.of_uint d)).
  unfold clamp_llong, LLONG_MIN, LLONG_MAX.
  destruct (Z.ltb_spec (- Z.of_N (N.of_uint d)) (- 2 ^ 63)); [lia|].
  destruct (Z.ltb_spec (2 ^ 63 - 1) (- Z.of_N (N.of_uint d))); lia.
Qed.

(** X5.  A minus sign is read by [strtoll]: the field [c-<digits>] with a
    positive number is not a specifier error but an index out of bounds,
    whatever the table; the message shows the negative offset, saturated
    at [-2^63]. *)
Theorem negative_index_out_of_bounds (constants : list Tensor)
    (loc : SourceRange) (m : Method) (d : Decimal.uint) :
  0 < Z.of_N (N.of_uint d) ->
  ConstantTableValue_attr constants loc m
    (String "c" (String "-" (NilEmpty.string_of_uint d)))
  = throw (index_out_of_bounds_error loc
             (Z.max (- Z.of_N (N.of_uint d)) LLONG_MIN) (length constants)).
Proof.
  intros Hpos.
  assert (Hd : d <> Decimal.Nil) by (intros ->; cbn in Hpos; lia).
  unfold ConstantTableValue_attr. cbn [advance1].
  rewrite strtoll_negative_digits by assumption.
  cbn [String.length Nat.ltb Nat.leb orb negb String.eqb].
  replace (Z.max (- Z.of_N (N.of_uint d)) LLONG_MIN <? 0) with true
    by (symmetry; apply Z.ltb_lt; unfold LLONG_MIN; lia).
  reflexivity.
Qed.

(** ** More on the version header and the environment *)

(** X6.  [parseVersionNumber] succeeds only on a line
    [op_version_set = <number>] with an integral number: it consumes exactly
    the four tokens of that line, and the version is the value [std::stoll]
    reads, as a [size_t]. *)
Theorem version_success_is_header (L L' : Lexer) (version : Z) :
  parseVersionNumber L = ret (version, L') ->
  exists version_text v,
    is_version_header L version_text L'
    /\ isIntegral (Const_create (range (cur L')) version_text) = true
    /\ stoll version_text = stoll_value v
    /\ version = to_size_t v
    /\ 0 <= version < SIZE_MODULUS.
Proof.
  unfold parseVersionNumber, expect.
  destruct (decide (kind (cur L) = TK_IDENT)) as [Hk1|]; [|discriminate].
  destruct L as [|t1 L]; [discriminate Hk1|]. cbn [cur tail bind ret] in *.
  destruct (decide (kind (cur L) = TK_CHAR "=")) as [Hk2|]; [|discriminate].
  destruct L as [|t2 L]; [discriminate Hk2|]. cbn [cur tail bind ret] in *.
  destruct (decide (kind (cur L) = TK_NUMBER)) as [Hk3|]; [|discriminate].
  destruct L as [|t3 L]; [discriminate Hk3|]. cbn [cur tail bind ret] in *.
  destruct (decide (kind (cur L) = TK_NEWLINE)) as [Hk4|]; [|discriminate].
  destruct L as [|t4 L]; [discriminate Hk4|]. cbn [cur tail bind ret] in *.
  destruct (String.eqb_spec (text t1) "op_version_set") as [Hname|];
    cbn [negb]; [|discriminate].
  destruct (isIntegral _) eqn:Hint; cbn [negb]; [|discriminate].
  unfold asIntegral, Const_create. cbn [const_text].
  destruct (stoll (text t3)) as [v| |] eqn:Hv; cbn [bind ret];
    try discriminate.
  intros [= <- <-].
  exists (text t3), v. repeat split; try assumption.
  - exists t1, t2, t3, t4. repeat split; assumption.
  - apply Z.mod_pos_bound. reflexivity.
  - apply Z.mod_pos_bound. reflexivity.
Qed.

(** X7.  On a line of the right shape, a wrong name and a number that is
    not integral are reported at the first token of the line, with the
    text of the offending number in the second message; the name is
    checked first. *)
Theorem version_errors_at_line_start (t1 t2 t3 t4 : Token) (rest : Lexer) :
  kind t1 = TK_IDENT ->
  kind t2 = TK_CHAR "="%char ->
  kind t3 = TK_NUMBER ->
  kind t4 = TK_NEWLINE ->
  (text t1 <> "op_version_set" ->
   parseVersionNumber (t1 :: t2 :: t3 :: t4 :: rest)
   = throw (ErrorReport (range t1) "expected an assignment to op_version_set"))
  /\
  (text t1 = "op_version_set" ->
   isIntegral (Const_create (range (cur rest)) (text t3)) = false ->
   parseVersionNumber (t1 :: t2 :: t3 :: t4 :: rest)
   = throw (ErrorReport (range t1)
              ("expected an integral version but found " +:+ text t3))).
Proof.
  intros Hk1 Hk2 Hk3 Hk4.
  unfold parseVersionNumber, expect. cbn [cur tail bind ret].
  repeat (rewrite decide_True by assumption; cbn [cur tail bind ret]).
  split.
  - intros Hname.
    destruct (String.eqb_spec (text t1) "op_version_set"); [contradiction|].
    reflexivity.
  - intros Hname Hint.
    destruct (String.eqb_spec (text t1) "op_version_set"); [|contradiction].
    cbn [negb]. rewrite Hint. reflexivity.
Qed.

(** X8.  A header that parses always gives an importer, whose parser stands
    right after the header; [torch] is the builtin module [aten] and [ops]
    the operator namespace, both at the version of the header, every
    attribute of [ops] is a builtin module at that version, and
    [CONSTANTS] is the table the importer was given. *)
Theorem environment_carries_header_version (src : Lexer)
    (constant_table : list Tensor) (version : Z) (L : Lexer) :
  parseVersionNumber src = inr (version, L) ->
  exists importer,
    SourceImporter_new src constant_table = inr importer
    /\ parser_ importer = L
    /\ (forall m loc,
          resolver_ importer "torch" m loc = Some (BuiltinModule "aten" version)
          /\ resolver_ importer "ops" m loc = Some (OpsValue version)
          /\ resolver_ importer "CONSTANTS" m loc
             = Some (ConstantTableValue constant_table))
    /\ (forall m loc field,
          OpsValue_attr version loc m field
          = ret (BuiltinModule field version, m)).
Proof.
  intros Hheader. eexists. split.
  - apply importer_of_header. exact Hheader.
  - cbn [parser_ resolver_]. repeat split.
Qed.

(** ** More on the drivers *)

Lemma map_const_repeat {A B : Type} (b : B) (l : list A) :
  map (fun _ => b) l = repeat b (length l).
Proof. induction l as [|a l IH]; simpl; [reflexivity | rewrite IH; reflexivity]. Qed.

Lemma class_methods_acc (resolver : Resolver) (defs : list Def)
    (acc : list Def * list Resolver) :
  fold_left (fun (acc : list Def * list Resolver) method_def =>
               (fst acc ++ [method_def], snd acc ++ [resolver]))
            defs acc
  = (fst acc ++ defs, snd acc ++ repeat resolver (length defs)).
Proof.
  revert acc. induction defs as [|d defs IH]; intros [ds rs]; simpl.
  - rewrite !app_nil_r. reflexivity.
  - rewrite IH. simpl. rewrite <- !app_assoc. reflexivity.
Qed.

(** X9.  The loop of [import_libs] over the methods of a class collects the
    methods in order and as many copies of the resolver. *)
Theorem class_methods_pairs (resolver : Resolver) (class_def : ClassDef) :
  class_methods resolver class_def
  = (class_defs class_def,
     repeat resolver (length (class_defs class_def))).
Proof. unfold class_methods. rewrite class_methods_acc. reflexivity. Qed.

Section MoreDriverFacts.
Variable parseFunction : bool -> Lexer -> Result (Def * Lexer).
Variable parseClass : Lexer -> Result (ClassDef * Lexer).
Variable defineMethods :
  ModulePtr -> list Def -> list Resolver -> Self -> World -> Result unit * World.
Hypothesis parseFunction_consumes :
  forall is_method L def L',
    parseFunction is_method L = inr (def, L') -> (length L' < length L)%nat.
Hypothesis parseClass_consumes :
  forall L class_def L',
    parseClass L = inr (class_def, L') -> (length L' < length L)%nat.

(** A source either holds method definitions up to its end or has one that
    does not parse. *)
Lemma parses_or_fails (L : Lexer) :
  (exists defs, defines_methods parseFunction L defs)
  \/ (exists e, fails_to_parse parseFunction L e).
Proof.
  induction L as [L IH] using (induction_ltof1 _ (@length Token)).
  destruct (decide (kind (cur L) = TK_EOF)) as [Heof|Hmore].
  { left. exists []. apply defines_end. assumption. }
  destruct (parseFunction true L) as [e|[def L']] eqn:Hparse.
  { right. exists e. apply fails_here; assumption. }
  destruct (IH L') as [[defs Hdefs]|[e Hfails]].
  - unfold ltof. eapply parseFunction_consumes. eassumption.
  - left. exists (def :: defs). eapply defines_more; eassumption.
  - right. exists e. eapply fails_later; eassumption.
Qed.

(** X10.  When the version header does not parse, [import_methods] and
    [import_libs] throw the header's error, nothing is parsed or compiled,
    and the world is unchanged. *)
Theorem header_failure_aborts_drivers (mod_ : ModulePtr) (src : Lexer)
    (constant_table : list Tensor) (W : World) (e : Exception) :
  parseVersionNumber src = inl e ->
  import_methods parseFunction defineMethods parseFunction_consumes
    mod_ src constant_table W = (throw e, W)
  /\ import_libs parseClass defineMethods parseClass_consumes
       src constant_table W = (throw e, W).
Proof.
  intros Hheader. unfold import_methods, import_libs, SourceImporter_new.
  rewrite Hheader. split; reflexivity.
Qed.

(** X11.  Whatever the number of method definitions in the source,
    [import_methods] calls the compiler once, with all of them in source
    order, one copy of the resolver per definition, and [self] bound to an
    accessor over the target module. *)
Theorem import_methods_all_definitions (mod_ : ModulePtr) (src : Lexer)
    (constant_table : list Tensor) (W : World) (version : Z) (L : Lexer)
    (defs : list Def) :
  parseVersionNumber src = inr (version, L) ->
  defines_methods parseFunction L defs ->
  import_methods parseFunction defineMethods parseFunction_consumes
    mod_ src constant_table W
  = defineMethods mod_ defs
      (repeat (make_resolver (make_env version constant_table)) (length defs))
      (Self_sugared (ModuleAccessorValue mod_)) W.
Proof.
  intros Hheader Hdefs.
  rewrite (import_methods_calls_compiler parseFunction defineMethods
             parseFunction_consumes mod_ src constant_table W version L defs
             Hheader Hdefs).
  rewrite map_const_repeat. reflexivity.
Qed.

(** X12.  [import_methods] changes nothing by itself: either it throws and
    the world is as before, or its result is that of one call of the
    compiler on the definitions of the whole source. *)
Theorem import_methods_outcome (mod_ : ModulePtr) (src : Lexer)
    (constant_table : list Tensor) (W : World) :
  (exists e,
      import_methods parseFunction defineMethods parseFunction_consumes
        mod_ src constant_table W = (throw e, W))
  \/
  (exists version L defs,
      parseVersionNumber src = inr (version, L)
      /\ defines_methods parseFunction L defs
      /\ import_methods parseFunction defineMethods parseFunction_consumes
           mod_ src constant_table W
         = defineMethods mod_ defs
             (repeat (make_resolver (make_env version constant_table))
                (length defs))
             (Self_sugared (ModuleAccessorValue mod_)) W).
Proof.
  destruct (parseVersionNumber src) as [e|[version L]] eqn:Hheader.
  { left. exists e. unfold import_methods, SourceImporter_new.
    rewrite Hheader. reflexivity. }
  destruct (parses_or_fails L) as [[defs Hdefs]|[e Hfails]].
  - right. exists version, L, defs. repeat split; try assumption.
    rewrite (import_methods_calls_compiler parseFunction defineMethods
               parseFunction_consumes mod_ src constant_table W version L defs
               Hheader Hdefs).
    rewrite map_const_repeat. reflexivity.
  - left. exists e. unfold import_methods.
    rewrite (importer_of_header _ _ _ _ Hheader). cbn [parser_ resolver_].
    rewrite (loop_fails parseFunction parseFunction_consumes _ _ _ Hfails).
    reflexivity.
Qed.

(** X13.  On a source that ends after the version header,
    [import_methods] still calls the compiler, with no definition, and
    [import_libs] returns without calling it and leaves the world
    unchanged. *)
Theorem header_only_source (mod_ : ModulePtr) (src : Lexer)
    (constant_table : list Tensor) (W : World) (version : Z) (L : Lexer) :
  parseVersionNumber src = inr (version, L) ->
  kind (cur L) = TK_EOF ->
  import_methods parseFunction defineMethods parseFunction_consumes
    mod_ src constant_table W
  = defineMethods mod_ [] [] (Self_sugared (ModuleAccessorValue mod_)) W
  /\ import_libs parseClass defineMethods parseClass_consumes
       src constant_table W = (ret tt, W).
Proof.
  intros Hheader Heof. split.
  - apply (import_methods_calls_compiler parseFunction defineMethods
             parseFunction_consumes mod_ src constant_table W version L []
             Hheader).
    apply defines_end. assumption.
  - unfold import_libs.
    rewrite (importer_of_header _ _ _ _ Hheader). cbn [parser_ resolver_].
    rewrite import_libs_loop_step, decide_True by assumption. reflexivity.
Qed.

(** X14.  [import_libs] compiles each class before it parses the next one:
    when the class after a compiled class does not parse, the call throws
    the parser's error and the world is the one the compiler left, with
    the module and the class type of the first class in it. *)
Theorem import_libs_keeps_earlier_classes (src : Lexer)
    (constant_table : list Tensor) (W W' : World) (version : Z)
    (L L1 : Lexer) (A : ClassDef) (e : Exception) :
  let resolver := make_resolver (make_env version constant_table) in
  let ptr_A := length (store W) in
  let type_A :=
    {| class_type_name := class_name A; class_type_module := ptr_A |} in
  parseVersionNumber src = inr (version, L) ->
  kind (cur L) <> TK_EOF ->
  parseClass L = inr (A, L1) ->
  defineMethods ptr_A (class_defs A)
    (repeat resolver (length (class_defs A))) (Self_class type_A)
    {| store := store W ++ [empty_Module];
       class_registry := class_registry W ++ [type_A] |}
  = (inr tt, W') ->
  kind (cur L1) <> TK_EOF ->
  parseClass L1 = inl e ->
  import_libs parseClass defineMethods parseClass_consumes
    src constant_table W
  = (throw e, W').
Proof.
  intros resolver ptr_A type_A Hheader HmoreA HparseA Hdefine Hmore1 Hparse1.
  unfold import_libs.
  rewrite (importer_of_header _ _ _ _ Hheader). cbn [parser_ resolver_].
  fold resolver.
  rewrite import_libs_loop_step, decide_False, HparseA by assumption.
  unfold class_methods. rewrite class_methods_acc. cbn [fst snd app].
  cbn [make_shared_Module ClassType_create store class_registry].
  fold ptr_A type_A. rewrite Hdefine.
  rewrite import_libs_loop_step, decide_False, Hparse1 by assumption.
  reflexivity.
Qed.

(** X15.  When the compiler throws on a class, [import_libs] throws the
    same error without parsing the rest of the source; the module
    allocated for the class and its class type are not taken back. *)
Theorem import_libs_stops_at_compile_error (src : Lexer)
    (constant_table : list Tensor) (W W' : World) (version : Z)
    (L L1 : Lexer) (A : ClassDef) (e : Exception) :
  let resolver := make_resolver (make_env version constant_table) in
  let ptr_A := length (store W) in
  let type_A :=
    {| class_type_name := class_name A; class_type_module := ptr_A |} in
  parseVersionNumber src = inr (version, L) ->
  kind (cur L) <> TK_EOF ->
  parseClass L = inr (A, L1) ->
  defineMethods ptr_A (class_defs A)
    (repeat resolver (length (class_defs A))) (Self_class type_A)
    {| store := store W ++ [empty_Module];
       class_registry := class_registry W ++ [type_A] |}
  = (inl e, W') ->
  import_libs parseClass defineMethods parseClass_consumes
    src constant_table W
  = (throw e, W').
Proof.
  intros resolver ptr_A type_A Hheader HmoreA HparseA Hdefine.
  unfold import_libs.
  rewrite (importer_of_header _ _ _ _ Hheader). cbn [parser_ resolver_].
  fold resolver.
  rewrite import_libs_loop_step, decide_False, HparseA by assumption.
  unfold class_methods. rewrite class_methods_acc. cbn [fst snd app].
  cbn [make_shared_Module ClassType_create store class_registry].
  fold ptr_A type_A. rewrite Hdefine. reflexivity.
Qed.
End MoreDriverFacts.

(** ** Instances *)

Lemma specifier_padding_ignored_witness :
  ConstantTableValue_attr sample_constants no_range empty_Method "c  +2"
  = ConstantTableValue_attr sample_constants no_range empty_Method "c2".
Proof.
  apply (specifier_padding_ignored sample_constants no_range empty_Method
           [" "%char; " "%char] true (Decimal.D2 Decimal.Nil)).
  - reflexivity.
  - discriminate.
Defined.

Lemma constant_table_errors_located_witness :
  invalid_specifier_error no_range "c3x"
  = invalid_specifier_error no_range "c3x"
  \/ invalid_specifier_error no_range "c3x"
     = index_out_of_bounds_error no_range
         (fst (CLib.strtoll (CLib.c_str (CLib.advance1 "c3x"))))
         (length sample_constants).
Proof.
  apply (constant_table_errors_located sample_constants no_range empty_Method
           "c3x").
  reflexivity.
Defined.

Lemma constant_table_success_witness :
  exists (i : nat) (t : Tensor),
    CLib.strtoll (CLib.c_str (CLib.advance1 "c2")) = (Z.of_nat i, "")
    /\ sample_constants !! i = Some t
    /\ SimpleValue (node_output 0)
       = SimpleValue (node_output (length (nodes (graph empty_Method))))
    /\ nodes (graph (snd (insertConstant (IValue_Tensor (TensorHandle 2))
                            (Some no_range) empty_Method)))
       = nodes (graph empty_Method)
         ++ [ {| node_value := IValue_Tensor t; node_range := Some no_range |} ]
    /\ inputs (graph (snd (insertConstant (IValue_Tensor (TensorHandle 2))
                             (Some no_range) empty_Method)))
       = inputs (graph empty_Method)
    /\ initial_ivalue_index
         (snd (insertConstant (IValue_Tensor (TensorHandle 2))
                 (Some no_range) empty_Method))
       = initial_ivalue_index empty_Method.
Proof.
  apply (constant_table_success sample_constants no_range empty_Method _ "c2").
  reflexivity.
Defined.

Lemma negative_index_out_of_bounds_witness :
  ConstantTableValue_attr sample_constants no_range empty_Method "c-1"
  = throw (index_out_of_bounds_error no_range (-1) 4).
Proof.
  apply (negative_index_out_of_bounds sample_constants no_range empty_Method
           (Decimal.D1 Decimal.Nil)).
  reflexivity.
Defined.

Lemma version_success_is_header_witness :
  exists version_text v,
    is_version_header (version_header "3") version_text []
    /\ isIntegral (Const_create (range (cur [])) version_text) = true
    /\ CLib.stoll version_text = CLib.stoll_value v
    /\ 3 = CLib.to_size_t v
    /\ 0 <= 3 < CLib.SIZE_MODULUS.
Proof.
  apply (version_success_is_header (version_header "3") [] 3).
  reflexivity.
Defined.

Lemma version_errors_at_line_start_witness :
  parseVersionNumber
    [ token TK_IDENT "version"; token (TK_CHAR "=") "=";
      token TK_NUMBER "3.5"; token TK_NEWLINE "" ]
  = throw (ErrorReport no_range "expected an assignment to op_version_set")
  /\ parseVersionNumber (version_header "3.5")
     = throw (ErrorReport no_range
                "expected an integral version but found 3.5").
Proof.
  split.
  - apply (proj1 (version_errors_at_line_start
                    (token TK_IDENT "version") (token (TK_CHAR "=") "=")
                    (token TK_NUMBER "3.5") (token TK_NEWLINE "") []
                    eq_refl eq_refl eq_refl eq_refl)).
    discriminate.
  - apply (proj2 (version_errors_at_line_start
                    (token TK_IDENT "op_version_set") (token (TK_CHAR "=") "=")
                    (token TK_NUMBER "3.5") (token TK_NEWLINE "") []
                    eq_refl eq_refl eq_refl eq_refl));
      reflexivity.
Defined.

Lemma environment_carries_header_version_witness :
  exists importer,
    SourceImporter_new (version_header "3") sample_constants = inr importer
    /\ parser_ importer = []
    /\ (forall m loc,
          resolver_ importer "torch" m loc = Some (BuiltinModule "aten" 3)
          /\ resolver_ importer "ops" m loc = Some (OpsValue 3)
          /\ resolver_ importer "CONSTANTS" m loc
             = Some (ConstantTableValue sample_constants))
    /\ (forall m loc field,
          OpsValue_attr 3 loc m field = ret (BuiltinModule field 3, m)).
Proof.
  apply (environment_carries_header_version (version_header "3")
           sample_constants 3 []).
  reflexivity.
Defined.

Lemma header_failure_aborts_drivers_witness :
  import_methods sample_parseFunction (defineMethodsInModule sample_compile)
    sample_parseFunction_consumes 0 (def_line "f") sample_constants sample_World
  = (throw (ErrorReport no_range "expected ident"), sample_World)
  /\ import_libs sample_parseClass (defineMethodsInModule sample_compile)
       sample_parseClass_consumes (def_line "f") sample_constants sample_World
     = (throw (ErrorReport no_range "expected ident"), sample_World).
Proof.
  apply (header_failure_aborts_drivers sample_parseFunction sample_parseClass
           (defineMethodsInModule sample_compile)
           sample_parseFunction_consumes sample_parseClass_consumes).
  reflexivity.
Defined.

Lemma import_methods_all_definitions_witness :
  import_methods sample_parseFunction (defineMethodsInModule sample_compile)
    sample_parseFunction_consumes 0
    (version_header "3" ++ def_line "f" ++ def_line "g" ++ def_line "h")
    sample_constants sample_World
  = defineMethodsInModule sample_compile 0
      [sample_def "f"; sample_def "g"; sample_def "h"]
      (repeat (make_resolver (make_env 3 sample_constants)) 3)
      (Self_sugared (ModuleAccessorValue 0)) sample_World.
Proof.
  apply (import_methods_all_definitions sample_parseFunction
           (defineMethodsInModule sample_compile)
           sample_parseFunction_consumes 0 _ sample_constants sample_World 3
           (def_line "f" ++ def_line "g" ++ def_line "h")
           [sample_def "f"; sample_def "g"; sample_def "h"]).
  - reflexivity.
  - eapply defines_more; [discriminate | reflexivity |].
    eapply defines_more; [discriminate | reflexivity |].
    eapply defines_more; [discriminate | reflexivity |].
    apply defines_end. reflexivity.
Defined.

Lemma import_methods_outcome_witness :
  (exists e,
      import_methods sample_parseFunction (defineMethodsInModule sample_compile)
        sample_parseFunction_consumes 0 (version_header "3" ++ def_line "f")
        sample_constants sample_World
      = (throw e, sample_World))
  \/
  (exists version L defs,
      parseVersionNumber (version_header "3" ++ def_line "f")
      = inr (version, L)
      /\ defines_methods sample_parseFunction L defs
      /\ import_methods sample_parseFunction
           (defineMethodsInModule sample_compile)
           sample_parseFunction_consumes 0 (version_header "3" ++ def_line "f")
           sample_constants sample_World
         = defineMethodsInModule sample_compile 0 defs
             (repeat (make_resolver (make_env version sample_constants))
                (length defs))
             (Self_sugared (ModuleAccessorValue 0)) sample_World).
Proof.
  apply (import_methods_outcome sample_parseFunction
           (defineMethodsInModule sample_compile)
           sample_parseFunction_consumes).
Defined.

Lemma header_only_source_witness :
  import_methods sample_parseFunction (defineMethodsInModule sample_compile)
    sample_parseFunction_consumes 0 (version_header "3")
    sample_constants sample_World
  = defineMethodsInModule sample_compile 0 [] []
      (Self_sugared (ModuleAccessorValue 0)) sample_World
  /\ import_libs sample_parseClass (defineMethodsInModule sample_compile)
       sample_parseClass_consumes (version_header "3")
       sample_constants sample_World
     = (ret tt, sample_World).
Proof.
  apply (header_only_source sample_parseFunction sample_parseClass
           (defineMethodsInModule sample_compile)
           sample_parseFunction_consumes sample_parseClass_consumes
           0 (version_header "3") sample_constants sample_World 3 []);
    reflexivity.
Defined.

Lemma import_libs_keeps_earlier_classes_witness :
  import_libs sample_parseClass (defineMethodsInModule sample_compile)
    sample_parseClass_consumes
    (version_header "3" ++ class_line "A" ++ def_line "m" ++ class_line "B")
    sample_constants sample_World
  = (throw (ErrorReport no_range "expected a definition"),
     {| store :=
          [ sample_Module;
            attach
              {| entry_def := sample_def "m";
                 entry_resolver := make_resolver (make_env 3 sample_constants);
                 entry_self :=
                   Self_class {| class_type_name := "A";
                                 class_type_module := 1%nat |} |}
              empty_Module ];
        class_registry :=
          [ {| class_type_name := "A"; class_type_module := 1%nat |} ] |}).
Proof.
  apply (import_libs_keeps_earlier_classes sample_parseClass
           (defineMethodsInModule sample_compile) sample_parseClass_consumes
           _ sample_constants sample_World _ 3
           (class_line "A" ++ def_line "m" ++ class_line "B")
           (class_line "B") (sample_class "A" "m")).
  - reflexivity.
  - discriminate.
  - reflexivity.
  - reflexivity.
  - discriminate.
  - reflexivity.
Defined.

Lemma import_libs_stops_at_compile_error_witness :
  import_libs sample_parseClass
    (defineMethodsInModule
       (fun _ _ _ _ => throw (ErrorReport no_range "undefined value")))
    sample_parseClass_consumes
    (version_header "3" ++ class_line "A" ++ def_line "m" ++ class_line "B")
    sample_constants sample_World
  = (throw (ErrorReport no_range "undefined value"),
     {| store := [sample_Module; empty_Module];
        class_registry :=
          [ {| class_type_name := "A"; class_type_module := 1%nat |} ] |}).
Proof.
  apply (import_libs_stops_at_compile_error sample_parseClass
           (defineMethodsInModule
              (fun _ _ _ _ => throw (ErrorReport no_range "undefined value")))
           sample_parseClass_consumes
           _ sample_constants sample_World _ 3
           (class_line "A" ++ def_line "m" ++ class_line "B")
           (class_line "B") (sample_class "A" "m")).
  - reflexivity.
  - discriminate.
  - reflexivity.
  - reflexivity.
Defined.
